(** * Randomized-Backgrounds: the frame sampler and the median aggregator

    A shallow embedding of [utils/frame_samplers.py] (class
    [Randomized_Frame_Sampler]) and of the capture and save blocks of
    [random_backgrounds.py], with the properties of the specification that
    they decide.

    Conventions of the embedding.
    - Python [int] is [Z].
    - Python [float] / [numpy.float64] is the type [Qc] of rationals in
      lowest terms: arithmetic is exact, so the development speaks about
      the arithmetic the sampler is written around, and the rounding error
      of binary64 is outside the model.  ([Binary64] repeats the timing
      expressions over IEEE doubles where exact values are at stake.)
      [nan] only arises as the median of an empty stack and is a
      constructor of its own there.
    - The global generator behind [np.random] is an abstract state with the
      two draws the sampler uses ([NumpyRandom]); every statement holds for
      every generator that meets the documented ranges.
    - A method of the sampler is a computation over the receiver [self] and
      the generator state which may raise ([Method]).
    - A frame is a nested list of [uint8] values (rows, pixels, channels);
      a [str] is the list of its characters (ASCII); [os.path] is
      [posixpath], with [abspath] left open. *)

From Stdlib Require Import Ascii String DecimalString.
From Stdlib Require Import ZArith QArith Qcanon Qround Lia Lqa List Bool.
From Stdlib Require Import Orders Sorting.Mergesort Sorting.Sorted Sorting.Permutation.
From Stdlib Require Import Floats.SpecFloat.
From Stdlib Require DecimalPos DecimalZ.
Import ListNotations.

Open Scope Z_scope.

(** ** Exceptions and results *)

Inductive PyExn : Set :=
| ValueError.

Inductive Result (A : Type) : Type :=
| Ok (a : A)
| Raise (e : PyExn).

Arguments Ok {A} a.
Arguments Raise {A} e.

(** ** Numbers *)

Module Num.

(** An [int] used where a [float] is expected. *)
Definition of_int (z : Z) : Qc := Q2Qc (inject_Z z).

(** [int(x)] on a float: truncation toward zero. *)
Definition py_int (x : Qc) : Z := Z.quot (Qnum x) (Zpos (Qden x)).

(** [a / b] on two ints: Python 3 true division. *)
Definition truediv (a b : Z) : Qc := (of_int a / of_int b)%Qc.

Definition half : Qc := Q2Qc (1 # 2).

(** The integer nearest to [x], ties going to the even neighbour: the
    rounding of [np.round] (and of Python's [round]). *)
Definition rint (x : Qc) : Z :=
  let f := Qfloor x in
  match ((x - of_int f)%Qc ?= half)%Qc with
  | Lt => f
  | Gt => f + 1
  | Eq => if Z.even f then f else f + 1
  end.

(** [np.round]: the result is still a float. *)
Definition np_round (x : Qc) : Qc := of_int (rint x).

Definition int32_min : Z := - 2 ^ 31.
Definition int32_max : Z := 2 ^ 31 - 1.

Definition fits_int32 (z : Z) : bool := (int32_min <=? z) && (z <=? int32_max).

(** [np.int32(x)] on a float: the C conversion, which truncates.  C leaves
    the conversion of a value outside the target range undefined; NumPy on
    x86-64 delivers the "integer indefinite" value [int32_min], which is
    what the model returns there.  Whatever a platform delivers is a 32-bit
    value. *)
Definition np_int32 (x : Qc) : Z :=
  let z := py_int x in
  if fits_int32 z then z else int32_min.

(** [sorted] on a pair of floats. *)
Definition sorted2 (p : Qc * Qc) : Qc * Qc :=
  let (a, b) := p in
  match (b ?= a)%Qc with
  | Lt => (b, a)
  | _ => (a, b)
  end.

(** [np.arange(0, n)] as floats. *)
Definition arange (n : nat) : list Qc := map (fun i => of_int (Z.of_nat i)) (seq 0 n).

(** [y[-1] = v] on a non-empty array. *)
Definition set_last (y : list Qc) (v : Qc) : list Qc :=
  match y with
  | [] => []
  | _ => removelast y ++ [v]
  end.

(** [np.linspace(start, stop, num)] with the default [endpoint=True],
    following NumPy's implementation: [arange(0, num) * step + start] with
    [step = (stop - start) / (num - 1)], the last entry overwritten by
    [stop] when [num > 1]; a zero step takes the
    [arange / div * delta] branch; [num = 1] has [div = 0] and yields
    [start]; a negative [num] raises [ValueError]. *)
Definition linspace (start stop : Qc) (num : Z) : Result (list Qc) :=
  if num <? 0 then Raise ValueError
  else
    let div := num - 1 in
    let delta := (stop - start)%Qc in
    let y := arange (Z.to_nat num) in
    let y :=
      if 0 <? div then
        let step := (delta / of_int div)%Qc in
        if Qc_eq_bool step 0%Qc
        then map (fun v => (v / of_int div * delta)%Qc) y
        else map (fun v => (v * step)%Qc) y
      else map (fun v => (v * delta)%Qc) y in
    let y := map (fun v => (v + start)%Qc) y in
    Ok (if 1 <? num then set_last y stop else y).

(** [num] points from [start] on with the common step
    [(stop - start) / (num - 1)]: what "evenly spaced over
    [[start, stop]], both ends included" means for [num >= 2]. *)
Definition evenly_spaced (start stop : Qc) (num : Z) : list Qc :=
  map (fun i => (start + of_int (Z.of_nat i) * ((stop - start) / of_int (num - 1)))%Qc)
      (seq 0 (Z.to_nat num)).

(** The points [i / (num - 1)] for [i = 0 .. num - 1].  For [num = 1]
    the only point is [0 / 0], which is [0] in [Qc]. *)
Definition unit_grid (num : Z) : list Qc :=
  map (fun i => (of_int (Z.of_nat i) / of_int (num - 1))%Qc) (seq 0 (Z.to_nat num)).

End Num.

(** ** The generator behind [np.random] *)

Class NumpyRandom (G : Type) : Type := {
  (** [np.random.rand()]: a float in the half-open interval [[0, 1)]. *)
  rand_draw : G -> Qc * G;
  (** [np.random.randint(low, high)] for [low < high]. *)
  randint_draw : Z -> Z -> G -> Z * G;
  rand_draw_range : forall g,
      (0 <= fst (rand_draw g))%Qc /\ (fst (rand_draw g) < 1)%Qc;
  randint_draw_range : forall low high g,
      low < high -> low <= fst (randint_draw low high g) < high
}.

(** ** A concrete generator: a tape of raw draws

    The state is the list of raw values still to be consumed; an exhausted
    tape keeps answering with the smallest admissible value.  It lets
    examples choose the draws a sampler sees. *)

Module Tape.

Definition t : Type := list Z.

Definition unit_of_raw (k : Z) : Qc := Q2Qc ((k mod 1000) # 1000).

Definition rand (g : t) : Qc * t :=
  match g with
  | [] => (0%Qc, [])
  | k :: g' => (unit_of_raw k, g')
  end.

Definition randint (low high : Z) (g : t) : Z * t :=
  match g with
  | [] => (low, [])
  | k :: g' => (low + k mod (high - low), g')
  end.

End Tape.

(** Moving between [Qc] and [Q]. *)

Ltac qc2q :=
  unfold Qcle, Qclt, Qcminus, Qcdiv, Qcplus, Qcmult, Qcopp, Qcinv in *;
  cbn [this Q2Qc] in *;
  rewrite ?Qred_correct in *.

Ltac qc_unfold :=
  unfold Num.half, Num.truediv, Num.of_int in *; qc2q.


Lemma Tape_rand_range (g : Tape.t) :
  (0 <= fst (Tape.rand g))%Qc /\ (fst (Tape.rand g) < 1)%Qc.
Proof.
  destruct g as [|k g]; cbn [Tape.rand fst].
  - split; [apply Qcle_refl | reflexivity].
  - unfold Tape.unit_of_raw. qc_unfold.
    pose proof (Z.mod_pos_bound k 1000 ltac:(lia)) as Hk.
    unfold Qle, Qlt; cbn [Qnum Qden]. lia.
Qed.

Lemma Tape_randint_range (low high : Z) (g : Tape.t) :
  low < high -> low <= fst (Tape.randint low high g) < high.
Proof.
  intros Hlh. destruct g as [|k g]; cbn [Tape.randint fst]; [lia|].
  pose proof (Z.mod_pos_bound k (high - low) ltac:(lia)). lia.
Qed.

#[export] Instance Tape_NumpyRandom : NumpyRandom Tape.t := {
  rand_draw := Tape.rand;
  randint_draw := Tape.randint;
  rand_draw_range := Tape_rand_range;
  randint_draw_range := Tape_randint_range
}.

(** ** Ordered sequences *)


(** ** Frames *)

(** A decoded frame: rows of pixels, a pixel being its channel values
    ([uint8], so each in [[0, 255]]). *)
Abbreviation pixel := (list Z) (only parsing).
Abbreviation frame := (list (list (list Z))) (only parsing).

(** [l[start:stop]]: a negative bound counts from the end, and both bounds
    are clamped to the length. *)
Definition py_slice {A : Type} (l : list A) (start stop : Z) : list A :=
  let n := Z.of_nat (List.length l) in
  let norm i := if i <? 0 then Z.max 0 (i + n) else Z.min i n in
  let a := norm start in
  let b := norm stop in
  firstn (Z.to_nat (b - a)) (skipn (Z.to_nat a) l).

(** How many elements [l[start:stop]] has when [l] has [len]. *)
Definition slice_len (len : nat) (start stop : Z) : nat :=
  let n := Z.of_nat len in
  let norm i := if i <? 0 then Z.max 0 (i + n) else Z.min i n in
  Nat.min (Z.to_nat (norm stop - norm start)) (len - Z.to_nat (norm start)).

(** [frame[y1:y2, x1:x2]]. *)
Definition slice2 (f : frame) (y1 y2 x1 x2 : Z) : frame :=
  map (fun row => py_slice row x1 x2) (py_slice f y1 y2).

(** ** The sampler object *)

Record Sampler : Type := mkSampler {
  _video_width : Z;
  _video_height : Z;
  _max_x_shift : Z;
  _max_y_shift : Z;
  _min_duration : Qc;
  _max_duration : Qc;
  _num_samples : Z;
  _crop_y1y2x1x2 : Z * Z * Z * Z;
  _norm_sample_idxs : list Qc
}.

(** Attribute assignment [self.f = v]. *)
Definition set_durations (lo hi : Qc) (s : Sampler) : Sampler :=
  mkSampler (_video_width s) (_video_height s) (_max_x_shift s) (_max_y_shift s)
            lo hi (_num_samples s) (_crop_y1y2x1x2 s) (_norm_sample_idxs s).

Definition set_crop (c : Z * Z * Z * Z) (s : Sampler) : Sampler :=
  mkSampler (_video_width s) (_video_height s) (_max_x_shift s) (_max_y_shift s)
            (_min_duration s) (_max_duration s) (_num_samples s) c (_norm_sample_idxs s).

Definition set_norm_sample_idxs (l : list Qc) (s : Sampler) : Sampler :=
  mkSampler (_video_width s) (_video_height s) (_max_x_shift s) (_max_y_shift s)
            (_min_duration s) (_max_duration s) (_num_samples s) (_crop_y1y2x1x2 s) l.

(** ** Methods: computations over [self] and the generator *)

Definition Method (G A : Type) : Type := Sampler -> G -> Result (A * Sampler * G).

Section Methods.

Context {G : Type}.

Definition ret {A} (a : A) : Method G A := fun s g => Ok (a, s, g).

Definition bind {A B} (m : Method G A) (k : A -> Method G B) : Method G B :=
  fun s g =>
    match m s g with
    | Ok (a, s', g') => k a s' g'
    | Raise e => Raise e
    end.

Definition self : Method G Sampler := fun s g => Ok (s, s, g).

Definition assign (f : Sampler -> Sampler) : Method G unit :=
  fun s g => Ok (tt, f s, g).

Definition lift {A} (r : Result A) : Method G A :=
  fun s g => match r with Ok a => Ok (a, s, g) | Raise e => Raise e end.

Context `{NumpyRandom G}.

Definition np_random_rand : Method G Qc :=
  fun s g => let (r, g') := rand_draw g in Ok (r, s, g').

(** [np.random.randint(low, high)] raises [ValueError] ("low >= high")
    on an empty range. *)
Definition np_random_randint (low high : Z) : Method G Z :=
  fun s g =>
    if low <? high
    then let (r, g') := randint_draw low high g in Ok (r, s, g')
    else Raise ValueError.

End Methods.

Declare Scope method_scope.
Delimit Scope method_scope with method.
Notation "x <- m ;; k" := (bind m (fun x => k))
  (at level 61, m at next level, right associativity) : method_scope.
Notation "m ;;; k" := (bind m (fun _ => k))
  (at level 61, right associativity) : method_scope.

Section SamplerMethods.

Context {G : Type} `{NumpyRandom G}.
Open Scope method_scope.

(** The three locals of [_get_randomized_norm_sampling_indices], as
    functions of the duration bounds and of the two draws [r1] and [r2]. *)
Definition norm_sample_duration (min_duration max_duration r1 : Qc) : Qc :=
  (min_duration + (max_duration - min_duration) * r1)%Qc.

Definition earliest_norm_sample (min_duration max_duration r1 r2 : Qc) : Qc :=
  ((1 - norm_sample_duration min_duration max_duration r1) * r2)%Qc.

Definition latest_norm_sample (min_duration max_duration r1 r2 : Qc) : Qc :=
  (earliest_norm_sample min_duration max_duration r1 r2
   + norm_sample_duration min_duration max_duration r1)%Qc.

Definition _get_randomized_crop_coords : Method G (Z * Z * Z * Z) :=
  s <- self ;;
  let output_width := _video_width s - _max_x_shift s in
  let output_height := _video_height s - _max_y_shift s in
  crop_x1 <- np_random_randint 0 (_max_x_shift s + 1) ;;
  crop_y1 <- np_random_randint 0 (_max_y_shift s + 1) ;;
  let crop_x2 := crop_x1 + output_width in
  let crop_y2 := crop_y1 + output_height in
  ret (crop_y1, crop_y2, crop_x1, crop_x2).

Definition _get_randomized_norm_sampling_indices : Method G (list Qc) :=
  s <- self ;;
  r1 <- np_random_rand ;;
  r2 <- np_random_rand ;;
  lift (Num.linspace
          (earliest_norm_sample (_min_duration s) (_max_duration s) r1 r2)
          (latest_norm_sample (_min_duration s) (_max_duration s) r1 r2)
          (_num_samples s)).

(** The receiver before [__init__] has assigned anything; no attribute is
    read before it is assigned. *)
Definition blank : Sampler := mkSampler 0 0 0 0 0%Qc 0%Qc 0 (0, 0, 0, 0) [].

Definition __init__ (video_wh max_shift_xy : Z * Z)
           (min_max_sampling_duration : Qc * Qc) (num_samples : Z)
  : G -> Result (Sampler * G) :=
  fun g =>
    let body : Method G unit :=
      let (lo, hi) := Num.sorted2 min_max_sampling_duration in
      assign (fun _ => mkSampler (fst video_wh) (snd video_wh)
                                 (fst max_shift_xy) (snd max_shift_xy)
                                 lo hi num_samples (0, 0, 0, 0) []) ;;;
      c <- _get_randomized_crop_coords ;;
      assign (set_crop c) ;;;
      l <- _get_randomized_norm_sampling_indices ;;
      assign (set_norm_sample_idxs l) in
    match body blank g with
    | Ok (_, s, g') => Ok (s, g')
    | Raise e => Raise e
    end.

Definition disable_random_shift : Method G unit :=
  s <- self ;;
  let output_width := _video_width s - _max_x_shift s in
  let output_height := _video_height s - _max_y_shift s in
  let crop_x1 := Num.py_int (Num.truediv (_max_x_shift s) 2) in
  let crop_y1 := Num.py_int (Num.truediv (_max_y_shift s) 2) in
  let crop_x2 := crop_x1 + output_width in
  let crop_y2 := crop_y1 + output_height in
  assign (set_crop (crop_y1, crop_y2, crop_x1, crop_x2)).

Definition disable_random_sample_timing : Method G unit :=
  assign (set_durations 1%Qc 1%Qc) ;;;
  l <- _get_randomized_norm_sampling_indices ;;
  assign (set_norm_sample_idxs l).

Definition crop (frame0 : frame) : Method G frame :=
  s <- self ;;
  let '(crop_y1, crop_y2, crop_x1, crop_x2) := _crop_y1y2x1x2 s in
  ret (slice2 frame0 crop_y1 crop_y2 crop_x1 crop_x2).

Definition get_xy_shift : Method G (Z * Z) :=
  s <- self ;;
  let centered_x := Num.py_int (Num.truediv (_max_x_shift s) 2) in
  let centered_y := Num.py_int (Num.truediv (_max_y_shift s) 2) in
  let '(crop_y1, _, crop_x1, _) := _crop_y1y2x1x2 s in
  let x_shift := crop_x1 - centered_x in
  let y_shift := crop_y1 - centered_y in
  ret (x_shift, y_shift).

Definition get_frame_indices (total_video_frames : Z) : Method G (list Z) :=
  s <- self ;;
  ret (map (fun p => Num.np_int32
                       (Num.np_round (Num.of_int (total_video_frames - 1) * p)%Qc))
           (_norm_sample_idxs s)).

(** The generator after the two [rand] draws of one timing computation. *)
Definition after_two_draws (g : G) : G := snd (rand_draw (snd (rand_draw g))).

(** The states a sampler object can be in: whatever [__init__] returns,
    and whatever the two public mutators make of such a state. *)
Inductive Constructed : Sampler -> Prop :=
| Constructed_init wh sh dur n g s g' :
    __init__ wh sh dur n g = Ok (s, g') -> Constructed s
| Constructed_shift s g s' g' :
    Constructed s -> disable_random_shift s g = Ok (tt, s', g') -> Constructed s'
| Constructed_timing s g s' g' :
    Constructed s -> disable_random_sample_timing s g = Ok (tt, s', g') ->
    Constructed s'.

End SamplerMethods.

(** What the data model asks of a crop rectangle [(y1, y2, x1, x2)]. *)
Definition crop_rect_spec (W Ht mx my : Z) (c : Z * Z * Z * Z) : Prop :=
  let '(y1, y2, x1, x2) := c in
  y2 - y1 = Ht - my /\
  x2 - x1 = W - mx /\
  0 <= x1 <= mx /\
  0 <= y1 <= my /\
  x2 <= W /\
  y2 <= Ht.

Definition crop_rect_ok (s : Sampler) : Prop :=
  crop_rect_spec (_video_width s) (_video_height s)
                 (_max_x_shift s) (_max_y_shift s) (_crop_y1y2x1x2 s).


(** The attributes that only [__init__] assigns. *)
Definition construction_params (s : Sampler) : Z * Z * Z * Z * Z :=
  (_video_width s, _video_height s, _max_x_shift s, _max_y_shift s, _num_samples s).

(** The crop rectangle centred in the frame. *)
Definition centered_crop (s : Sampler) : Z * Z * Z * Z :=
  (_max_y_shift s / 2,
   _max_y_shift s / 2 + (_video_height s - _max_y_shift s),
   _max_x_shift s / 2,
   _max_x_shift s / 2 + (_video_width s - _max_x_shift s)).

(** The scenario of the testable properties: a 640 x 480 video, shifts of at
    most 100 pixels, five samples over a quarter of the video at least, and
    the draws 37, 12, 1/2 and 1/4. *)
Definition demo_tape : Tape.t := [37; 12; 500; 250].

Definition in_unit_interval (p : Qc) : Prop := (0 <= p)%Qc /\ (p <= 1)%Qc.

(** The frame index the specification assigns to a position:
    [round(p * (T - 1))]. *)
Definition rounded_index (T : Z) (p : Qc) : Z :=
  Num.rint (p * Num.of_int (T - 1))%Qc.

Definition demo_sampler : Sampler :=
  match __init__ (640, 480) (100, 100) (Q2Qc (1 # 4), 1%Qc) 5 demo_tape with
  | Ok (s, _) => s
  | Raise _ => blank
  end.


(** [demo_sampler] made into the reference variant, as the script does
    with the first sampler of its list. *)
Definition reference_sampler : Sampler :=
  match (disable_random_shift ;;; disable_random_sample_timing)%method
          demo_sampler demo_tape with
  | Ok (_, s, _) => s
  | Raise _ => blank
  end.

(** ** The median reduction *)

Module ZLeb <: TotalLeBool.
Definition t : Type := Z.
Definition leb : Z -> Z -> bool := Z.leb.
Lemma leb_total : forall x y, leb x y = true \/ leb y x = true.
Proof. intros x y. unfold leb. rewrite !Z.leb_le. lia. Qed.
End ZLeb.

Module ZSort := Sort ZLeb.

(** The median of a non-empty sample: the middle of the sorted values, or
    the mean of the two middle ones.  (On the empty sample NumPy answers
    [nan]; the reduction below never asks.) *)
Definition median (vs : list Z) : Qc :=
  let sorted := ZSort.sort vs in
  let n := List.length vs in
  let lower := nth (n / 2 - 1)%nat sorted 0 in
  let upper := nth (n / 2)%nat sorted 0 in
  if Nat.even n
  then ((Num.of_int lower + Num.of_int upper) / (1 + 1))%Qc
  else Num.of_int upper.

(** Regrouping a stack of equally long lists along its first axis: entry
    [i] of the result collects the entries [i] of the members, in the order
    of the stack. *)
Fixpoint columns_of {A : Type} (first : list A) (rest : list (list A))
  : list (list A) :=
  match first with
  | [] => []
  | a :: first' =>
      (a :: flat_map (firstn 1) rest) :: columns_of first' (map (@tl A) rest)
  end.

Definition columns {A : Type} (stack : list (list A)) : list (list A) :=
  match stack with
  | [] => []
  | first :: rest => columns_of first rest
  end.

(** The shape of a frame, as the lengths of its rows of pixels. *)
Definition dims (f : frame) : list (list nat) := map (map (@List.length Z)) f.

Definition dims_eqb (a b : list (list nat)) : bool :=
  if list_eq_dec (list_eq_dec Nat.eq_dec) a b then true else false.

(** Whether a stack of frames makes one array. *)
Definition homogeneous (stack : list frame) : bool :=
  match stack with
  | [] => true
  | f :: fs => forallb (fun f' => dims_eqb (dims f') (dims f)) fs
  end.

(** What [np.median(stack, axis=0)] returns: an array of floats, or the
    scalar [nan] on the empty stack. *)
Inductive MedianArray : Type :=
| MedianOf (a : list (list (list Qc)))
| MedianNaN.

(** [np.median(stack, axis = 0)]; frames of different shapes do not make
    an array ([ValueError]). *)
Definition np_median_axis0 (stack : list frame) : Result MedianArray :=
  match stack with
  | [] => Ok MedianNaN
  | _ =>
      if homogeneous stack
      then Ok (MedianOf
                 (map (fun rows => map (fun pixels => map median (columns pixels))
                                       (columns rows))
                      (columns stack)))
      else Raise ValueError
  end.

(** A background as the script stores it: a pixel array, or the scalar that
    comes out of the empty stack. *)
Inductive Background : Type :=
| BgArray (a : frame)
| BgScalar (v : Z).

(** [np.uint8(x)] on a float: the C conversion; a value in [[0, 255]]
    converts to itself, and outside of it the low eight bits of the
    truncation are what x86-64 delivers. *)
Definition np_uint8 (x : Qc) : Z := (Num.py_int x) mod 256.

(** [np.uint8(nan)]: the low eight bits of the "integer indefinite"
    value. *)
Definition np_uint8_nan : Z := Num.int32_min mod 256.

(** [np.uint8(np.round(m))]. *)
Definition uint8_round (m : MedianArray) : Background :=
  match m with
  | MedianOf a => BgArray (map (map (map (fun x => np_uint8 (Num.np_round x)))) a)
  | MedianNaN => BgScalar np_uint8_nan
  end.

(** [np.uint8(np.round(np.median(cropped_samples_list, axis = 0)))]. *)
Definition median_background (cropped_samples_list : list frame) : Result Background :=
  match np_median_axis0 cropped_samples_list with
  | Ok m => Ok (uint8_round m)
  | Raise e => Raise e
  end.

(** The array the script computes from a non-empty stack of frames of one
    shape. *)
Definition reduced (stack : list frame) : frame :=
  map (fun rows =>
         map (fun pixels =>
                map (fun values => np_uint8 (Num.np_round (median values)))
                    (columns pixels))
             (columns rows))
      (columns stack).

(** Clamping to the pixel range. *)
Definition clamp_pixel (z : Z) : Z := Z.max 0 (Z.min 255 z).


(** [h] rows of [w] pixels of [c] channels, each value a [uint8]. *)
Definition uint8_frame (h w c : nat) (f : frame) : Prop :=
  List.length f = h /\
  Forall (fun row =>
            List.length row = w /\
            Forall (fun px => List.length px = c /\
                              Forall (fun v => 0 <= v <= 255) px) row) f.

(** The same, as a test. *)
Definition is_uint8_frame (h w c : nat) (f : frame) : bool :=
  Nat.eqb (List.length f) h
  && forallb (fun row =>
                Nat.eqb (List.length row) w
                && forallb (fun px =>
                              Nat.eqb (List.length px) c
                              && forallb (fun v => (0 <=? v) && (v <=? 255)) px)
                           row) f.

(** The value of channel [k] of the pixel in row [i] and column [j]. *)
Definition pixel_at (f : frame) (i j k : nat) : Z :=
  nth k (nth j (nth i f []) []) 0.

(** ** The video reader *)

(** [cv2.VideoCapture]: what decoding at each index gives (nothing where the
    index cannot be read) and the position of the next read. *)
Record VideoCapture : Type := mkVideoCapture {
  decoded : Z -> option frame;
  pos_frames : Z
}.

(** [vread.set(cv2.CAP_PROP_POS_FRAMES, idx)]. *)
Definition vread_set (v : VideoCapture) (idx : Z) : VideoCapture :=
  mkVideoCapture (decoded v) idx.

(** [vread.read()]: the pair [(rec_frame, frame)] as an option; a frame
    that was read moves the position on. *)
Definition vread_read (v : VideoCapture) : option frame * VideoCapture :=
  match decoded v (pos_frames v) with
  | Some f => (Some f, mkVideoCapture (decoded v) (pos_frames v + 1))
  | None => (None, v)
  end.

(** ** Text *)

(** A Python [str] is the list of its characters; the model covers ASCII
    text. *)
Abbreviation str := (list ascii) (only parsing).

(** A string literal. *)
Definition lit (s : string) : str := list_ascii_of_string s.

(** [str(z)] for an int, which is also how [format] prints it. *)
Definition str_of_int (z : Z) : str := lit (NilZero.string_of_int (Z.to_int z)).

(** The two lines printed for an index that could not be read; the index
    is an integer, which the format [{:.2f}] prints with two zero
    decimals. *)
Definition read_error_lines (idx : Z) : list str :=
  [lit "Error reading frame @ " ++ str_of_int idx ++ lit ".00"; lit "Skipping..."].

(** ** The capture loop *)

Section Aggregator.

Context {G : Type} `{NumpyRandom G}.

(** What the script holds besides the samplers: the reader, what it has
    printed, and the generator. *)
Record Script : Type := mkScript {
  vread : VideoCapture;
  stdout : list str;
  np_random : G
}.

(** The loop over the frame indices of one sampler. *)
Fixpoint sample_frames (idxs : list Z) (cropped_samples_list : list frame)
         (s : Sampler) (st : Script)
  : Result (list frame * Sampler * Script) :=
  match idxs with
  | [] => Ok (cropped_samples_list, s, st)
  | each_sample_idx :: rest =>
      let (got, v) := vread_read (vread_set (vread st) each_sample_idx) in
      match got with
      | None =>
          sample_frames rest cropped_samples_list s
            (mkScript v (stdout st ++ read_error_lines each_sample_idx) (np_random st))
      | Some frame0 =>
          match crop frame0 s (np_random st) with
          | Ok (new_cropped_frame, s', g') =>
              sample_frames rest (cropped_samples_list ++ [new_cropped_frame]) s'
                (mkScript v (stdout st) g')
          | Raise e => Raise e
          end
      end
  end.

(** One pass of the outer loop: the samples of one sampler and their
    median. *)
Definition capture_variant (total_frames : Z) (s : Sampler) (st : Script)
  : Result (Background * Sampler * Script) :=
  match get_frame_indices total_frames s (np_random st) with
  | Raise e => Raise e
  | Ok (idxs, s1, g1) =>
      match sample_frames idxs [] s1 (mkScript (vread st) (stdout st) g1) with
      | Raise e => Raise e
      | Ok (cropped_samples_list, s2, st2) =>
          match median_background cropped_samples_list with
          | Raise e => Raise e
          | Ok new_median_bg => Ok (new_median_bg, s2, st2)
          end
      end
  end.

(** The outer loop over [bg_samplers_list], appending to
    [median_bg_frames]; an exception ends the script. *)
Fixpoint capture_loop (total_frames : Z) (bg_samplers_list : list Sampler)
         (median_bg_frames : list Background) (st : Script)
  : Result (list Background * list Sampler * Script) :=
  match bg_samplers_list with
  | [] => Ok (median_bg_frames, [], st)
  | each_bg_sampler :: rest =>
      match capture_variant total_frames each_bg_sampler st with
      | Raise e => Raise e
      | Ok (new_median_bg, s', st') =>
          match capture_loop total_frames rest (median_bg_frames ++ [new_median_bg]) st' with
          | Raise e => Raise e
          | Ok (frames, rest', st'') => Ok (frames, s' :: rest', st'')
          end
      end
  end.

End Aggregator.

Arguments Script G : clear implicits.
Arguments mkScript {G} vread stdout np_random.

(** The indices a sampler asks for, as a plain list. *)
Definition frame_indices (total_frames : Z) (s : Sampler) : list Z :=
  map (fun p => Num.np_int32 (Num.np_round (Num.of_int (total_frames - 1) * p)%Qc))
      (_norm_sample_idxs s).

(** The crop of a sampler, as a plain function. *)
Definition cropped (s : Sampler) (f : frame) : frame :=
  let '(y1, y2, x1, x2) := _crop_y1y2x1x2 s in slice2 f y1 y2 x1 x2.

(** Height and width of the crop of an [h] x [w] frame. *)
Definition crop_shape (s : Sampler) (h w : nat) : nat * nat :=
  let '(y1, y2, x1, x2) := _crop_y1y2x1x2 s in
  (slice_len h y1 y2, slice_len w x1 x2).

(** The crops of the frames that can be read at the given indices, and the
    indices that cannot be read, both in the order of the indices. *)
Definition readable_crops (dec : Z -> option frame) (s : Sampler) (idxs : list Z)
  : list frame :=
  flat_map (fun i => match dec i with
                     | Some f => [cropped s f]
                     | None => []
                     end) idxs.

Definition unreadable (dec : Z -> option frame) (idxs : list Z) : list Z :=
  filter (fun i => match dec i with Some _ => false | None => true end) idxs.

(** A working directory for the examples: [abspath] of a relative path
    under [/cwd]. *)
Definition demo_abspath (p : str) : str := lit "/cwd/" ++ p.

(** A small scenario: a 4 x 3 video of five frames, three samples over the
    whole of it, cropped to 2 x 2. *)
Definition tiny_sampler : Sampler :=
  match __init__ (4, 3) (2, 1) (1%Qc, 1%Qc) 3 ([1; 0] : Tape.t) with
  | Ok (s, _) => s
  | Raise _ => blank
  end.

Definition ramp (base : Z) : frame :=
  map (fun r => map (fun c => [base + 4 * Z.of_nat r + Z.of_nat c; 255 - base; 7])
                    (seq 0 4))
      (seq 0 3).

(** Frame [i] of the video is [ramp (10 * i)], unless [bad i]. *)
Definition tiny_decode (bad : Z -> bool) (i : Z) : option frame :=
  if bad i then None
  else if (0 <=? i) && (i <? 5) then Some (ramp (10 * i)) else None.

Definition tiny_script (bad : Z -> bool) : Script Tape.t :=
  mkScript (mkVideoCapture (tiny_decode bad) 0) [] [].

(** ** Paths and the save block *)

Module Str.

(** [s.rfind(c)] for a character: the last index of [c], or [-1]. *)
Fixpoint rfind (c : ascii) (s : str) : Z :=
  match s with
  | [] => -1
  | a :: t =>
      let r := rfind c t in
      if 0 <=? r then r + 1 else if Ascii.eqb a c then 0 else -1
  end.

(** [c.isspace()] on ASCII: blank, tab to carriage return, and the four
    separators 28 to 31. *)
Definition isspace (c : ascii) : bool :=
  let n := nat_of_ascii c in
  (Nat.eqb n 32 || (Nat.leb 9 n && Nat.leb n 13) || (Nat.leb 28 n && Nat.leb n 31))%bool.

Fixpoint lstrip (s : str) : str :=
  match s with
  | [] => []
  | a :: t => if isspace a then lstrip t else s
  end.

Definition rstrip (s : str) : str := rev (lstrip (rev s)).

(** [s.strip()]. *)
Definition strip (s : str) : str := rstrip (lstrip s).

Definition lower_char (c : ascii) : ascii :=
  let n := nat_of_ascii c in
  if (Nat.leb 65 n && Nat.leb n 90)%bool then ascii_of_nat (n + 32) else c.

(** [s.lower()]. *)
Definition lower (s : str) : str := map lower_char s.

(** [s.replace(old, new)] for single characters. *)
Definition replace (old new : ascii) (s : str) : str :=
  map (fun c => if Ascii.eqb c old then new else c) s.

Definition startswith (c : ascii) (s : str) : bool :=
  match s with
  | a :: _ => Ascii.eqb a c
  | [] => false
  end.

Definition endswith (c : ascii) (s : str) : bool := startswith c (rev s).

End Str.

Module PosixPath.

Definition sep : ascii := "/"%char.
Definition extsep : ascii := "."%char.

(** [os.path.basename(p)]: [p[p.rfind('/') + 1:]]. *)
Definition basename (p : str) : str :=
  let i := Str.rfind sep p + 1 in
  skipn (Z.to_nat i) p.

(** [os.path.splitext(p)]: the split is at the last dot, provided it comes
    after the last separator and some character between the two is not a
    dot. *)
Definition splitext (p : str) : str * str :=
  let sepIndex := Str.rfind sep p in
  let dotIndex := Str.rfind extsep p in
  if (sepIndex <? dotIndex)
     && negb (forallb (fun c => Ascii.eqb c extsep)
                      (py_slice p (sepIndex + 1) dotIndex))
  then (firstn (Z.to_nat dotIndex) p, skipn (Z.to_nat dotIndex) p)
  else (p, []).

(** [os.path.join(a, b)]. *)
Definition join (a b : str) : str :=
  if Str.startswith sep b then b
  else if match a with [] => true | _ => Str.endswith sep a end
       then a ++ b
       else a ++ [sep] ++ b.

End PosixPath.

(** The name of the sub-folder, from the path of the video: lines 160 to
    162 of the script. *)
Definition video_name_only (video_source : str) : str :=
  let video_file_name := PosixPath.basename video_source in
  let (name, _) := PosixPath.splitext video_file_name in
  Str.replace " "%char "_"%char (Str.lower (Str.strip name)).

(** What [get_xy_shift] answers, as a plain function of the sampler. *)
Definition xy_shift (s : Sampler) : Z * Z :=
  let '(crop_y1, _, crop_x1, _) := _crop_y1y2x1x2 s in
  (crop_x1 - Num.py_int (Num.truediv (_max_x_shift s) 2),
   crop_y1 - Num.py_int (Num.truediv (_max_y_shift s) 2)).

(** The format [({}, {}).png] filled with the two shifts. *)
Definition save_name (x_shift y_shift : Z) : str :=
  lit "(" ++ str_of_int x_shift ++ lit ", " ++ str_of_int y_shift ++ lit ").png".

(** The basename as the specification words it: the name without extension,
    lowercased, every whitespace character replaced by an underscore. *)
Definition spec_sanitized_basename (video_source : str) : str :=
  map (fun c => if Str.isspace c then "_"%char else Str.lower_char c)
      (fst (PosixPath.splitext (PosixPath.basename video_source))).

(** The path as the specification words it. *)
Definition spec_save_path (output_dir video_source : str) (x_shift y_shift : Z)
           (image_ext : str) : str :=
  output_dir ++ lit "/" ++ spec_sanitized_basename video_source ++ lit "/"
  ++ lit "(" ++ str_of_int x_shift ++ lit ", " ++ str_of_int y_shift ++ lit ")."
  ++ image_ext.

Section SaveBlock.

Context {G : Type} `{NumpyRandom G}.

(** [os.path.abspath], which depends on the working directory. *)
Variable abspath : str -> str.

(** The loop over [zip(bg_samplers_list, median_bg_frames)]: each
    [cv2.imwrite(save_path, each_bg_frame)] is recorded. *)
Fixpoint save_each (save_folder_path : str) (pairs : list (Sampler * Background))
         (written : list (str * Background)) (g : G)
  : Result (list (str * Background) * G) :=
  match pairs with
  | [] => Ok (written, g)
  | (each_bg_sampler, each_bg_frame) :: rest =>
      match get_xy_shift each_bg_sampler g with
      | Raise e => Raise e
      | Ok ((x_shift, y_shift), _, g') =>
          let save_path := PosixPath.join save_folder_path (save_name x_shift y_shift) in
          save_each save_folder_path rest (written ++ [(save_path, each_bg_frame)]) g'
      end
  end.

(** The save block once the user has confirmed: the folder it makes and
    the files it writes. *)
Definition save_block (ARG_OUTPUT video_source : str)
           (bg_samplers_list : list Sampler) (median_bg_frames : list Background)
           (g : G)
  : Result (str * list (str * Background) * G) :=
  let save_folder_path :=
    PosixPath.join (abspath ARG_OUTPUT) (video_name_only video_source) in
  match save_each save_folder_path (combine bg_samplers_list median_bg_frames) [] g with
  | Raise e => Raise e
  | Ok (written, g') => Ok (save_folder_path, written, g')
  end.

End SaveBlock.


(** What one pass of the capture loop stores for a sampler, as a plain
    function of the video: the reduction of the crops that can be read, or
    the scalar of the empty stack. *)
Definition variant_background (dec : Z -> option frame) (total_frames : Z)
           (s : Sampler) : Background :=
  match readable_crops dec s (frame_indices total_frames s) with
  | [] => BgScalar np_uint8_nan
  | kept => BgArray (reduced kept)
  end.

(** What one pass prints: two lines for each index it cannot read. *)
Definition variant_warnings (dec : Z -> option frame) (total_frames : Z)
           (s : Sampler) : list str :=
  flat_map read_error_lines (unreadable dec (frame_indices total_frames s)).

(** ** The configuration block and the prompt *)

(** [a == b] on two strings. *)
Definition str_eqb (a b : str) : bool :=
  if list_eq_dec ascii_dec a b then true else false.

(** Line 148 of the script: the answer to the prompt confirms the save
    unless, stripped and lowercased, it is the letter n. *)
Definition save_confirmed (user_input : str) : bool :=
  negb (str_eqb (Str.lower (Str.strip user_input)) (lit "n")).


Section Configuration.

Context {G : Type} `{NumpyRandom G}.



End Configuration.

(** ** The timing arithmetic in binary64

    The expressions of [_get_randomized_norm_sampling_indices] and of
    [get_frame_indices] over IEEE 754 doubles ([SpecFloat] with precision
    53), for the places where exact values are spoken of: the window of a
    sampler whose bounds are both 1.0, and the products of the scenario
    with 101 frames. *)

Module Binary64.

Definition prec : Z := 53.
Definition emax : Z := 1024.

Definition add : spec_float -> spec_float -> spec_float := SFadd prec emax.
Definition sub : spec_float -> spec_float -> spec_float := SFsub prec emax.
Definition mul : spec_float -> spec_float -> spec_float := SFmul prec emax.
Definition div : spec_float -> spec_float -> spec_float := SFdiv prec emax.

Definition zero : spec_float := S754_zero false.
Definition one : spec_float := S754_finite false 4503599627370496 (-52).

(** An [int] as a double. *)
Definition of_int (z : Z) : spec_float := binary_normalize prec emax z 0 false.

(** What [np.random.rand()] can return: [+0.0] or a positive finite
    double. *)
Definition is_draw (x : spec_float) : bool :=
  match x with
  | S754_zero false => true
  | S754_finite false _ _ => true
  | _ => false
  end.

Definition norm_sample_duration (min_duration max_duration r1 : spec_float)
  : spec_float :=
  add min_duration (mul (sub max_duration min_duration) r1).

Definition earliest_norm_sample (min_duration max_duration r1 r2 : spec_float)
  : spec_float :=
  mul (sub one (norm_sample_duration min_duration max_duration r1)) r2.

Definition latest_norm_sample (min_duration max_duration r1 r2 : spec_float)
  : spec_float :=
  add (earliest_norm_sample min_duration max_duration r1 r2)
      (norm_sample_duration min_duration max_duration r1).

End Binary64.

(** * Properties *)

(** ** Conversions and rounding *)

Section NumFacts.

Import Num.

Lemma of_int_Q (z : Z) : (of_int z == inject_Z z)%Q.
Proof. unfold of_int. cbn [this Q2Qc]. apply Qred_correct. Qed.

Lemma of_int_le (a b : Z) : a <= b -> (of_int a <= of_int b)%Qc.
Proof.
  intros Hab. unfold Qcle. rewrite !of_int_Q. now rewrite <- Zle_Qle.
Qed.

Lemma of_int_le_inv (a b : Z) : (of_int a <= of_int b)%Qc -> a <= b.
Proof.
  unfold Qcle. rewrite !of_int_Q. now rewrite <- Zle_Qle.
Qed.

Lemma py_int_nonneg (x : Qc) : (0 <= x)%Qc -> py_int x = Qfloor x.
Proof.
  unfold Qcle, py_int. destruct x as [[n d] Hc]. cbn [this Qnum Qden Qfloor].
  unfold Qle; cbn. intros Hn.
  apply Z.quot_div_nonneg; lia.
Qed.

Lemma py_int_of_int (z : Z) : py_int (of_int z) = z.
Proof.
  unfold py_int, of_int. cbn [this Q2Qc].
  replace (Qred (inject_Z z)) with (inject_Z z).
  - cbn. apply Z.quot_1_r.
  - unfold inject_Z, Qred. cbn [Qnum Qden].
    pose proof (Z.ggcd_gcd z 1) as Hg. pose proof (Z.ggcd_correct_divisors z 1) as Hd.
    destruct (Z.ggcd z 1) as [g [a b]]. cbn [fst] in Hg.
    rewrite Z.gcd_1_r in Hg. subst g. destruct Hd as [-> Hb].
    assert (b = 1) as -> by lia. cbn [snd Z.to_pos]. f_equal. lia.
Qed.

(** [int(m / 2)] is the floor of the half for a non-negative [m]. *)
Lemma py_int_half (m : Z) : 0 <= m -> py_int (truediv m 2) = m / 2.
Proof.
  intros Hm. rewrite py_int_nonneg.
  - rewrite Zdiv_Qdiv. apply Qfloor_comp. qc_unfold. reflexivity.
  - qc_unfold. rewrite Zle_Qle in Hm. unfold Qdiv.
    apply Qmult_le_0_compat; [exact Hm | discriminate].
Qed.

(** Where [rint] lands relative to the floor. *)
Lemma rint_cases (x : Qc) :
  let f := Qfloor x in
  ((x - inject_Z f < 1 # 2)%Q /\ rint x = f) \/
  ((1 # 2 < x - inject_Z f)%Q /\ rint x = f + 1) \/
  ((x - inject_Z f == 1 # 2)%Q /\ rint x = if Z.even f then f else f + 1).
Proof.
  intros f. unfold rint. fold f. unfold Qccompare.
  assert (E : ((x - of_int f)%Qc == x - inject_Z f)%Q).
  { qc_unfold. reflexivity. }
  assert (Eh : (half == 1 # 2)%Q) by (qc_unfold; reflexivity).
  rewrite E, Eh.
  destruct (Qcompare_spec (x - inject_Z f) (1 # 2)); auto.
Qed.

Lemma rint_floor_bounds (x : Qc) : Qfloor x <= rint x <= Qfloor x + 1.
Proof.
  destruct (rint_cases x) as [[_ ->]|[[_ ->]|[_ ->]]]; try lia.
  destruct (Z.even (Qfloor x)); lia.
Qed.

Lemma rint_of_int (z : Z) : rint (of_int z) = z.
Proof.
  pose proof (of_int_Q z) as Ez.
  assert (Ef : Qfloor (of_int z) = z) by (rewrite (Qfloor_comp _ _ Ez); apply Qfloor_Z).
  destruct (rint_cases (of_int z)) as [[_ E]|[[Hgt E]|[Heq E]]];
    rewrite Ef in *; try exact E.
  - rewrite Ez in Hgt. exfalso. lra.
  - rewrite Ez in Heq. exfalso. lra.
Qed.

(** Rounding to nearest is monotone. *)
Lemma rint_mono (x y : Qc) : (x <= y)%Qc -> rint x <= rint y.
Proof.
  unfold Qcle. intros Hxy.
  pose proof (Qfloor_resp_le _ _ Hxy) as Hf.
  pose proof (rint_floor_bounds x) as Bx. pose proof (rint_floor_bounds y) as By.
  destruct (Z.eq_dec (Qfloor x) (Qfloor y)) as [Efl|Nfl]; [|lia].
  destruct (rint_cases x) as [[Hx Ex]|[[Hx Ex]|[Hx Ex]]];
    destruct (rint_cases y) as [[Hy Ey]|[[Hy Ey]|[Hy Ey]]];
    rewrite Ex, Ey; rewrite Efl in *; try lia;
    try (destruct (Z.even (Qfloor y)); lia);
    try (exfalso; lra).
Qed.

(** Rounding stays between integer bounds of its argument. *)
Lemma rint_between (a b : Z) (x : Qc) :
  (of_int a <= x)%Qc -> (x <= of_int b)%Qc -> a <= rint x <= b.
Proof.
  intros Ha Hb. apply rint_mono in Ha, Hb. rewrite rint_of_int in *. lia.
Qed.

(** On a value that fits, [np.int32] after [np.round] is [rint]. *)
Lemma np_int32_round (x : Qc) :
  fits_int32 (rint x) = true -> np_int32 (np_round x) = rint x.
Proof.
  intros Hfit. unfold np_int32, np_round. rewrite py_int_of_int, Hfit. reflexivity.
Qed.

Lemma fits_int32_iff (z : Z) : fits_int32 z = true <-> - 2 ^ 31 <= z <= 2 ^ 31 - 1.
Proof.
  unfold fits_int32, int32_min, int32_max.
  rewrite andb_true_iff, !Z.leb_le. reflexivity.
Qed.

Lemma of_int_inj (a b : Z) : of_int a = of_int b -> a = b.
Proof.
  intros E. apply Z.le_antisymm; apply of_int_le_inv; rewrite E; apply Qcle_refl.
Qed.

Lemma of_int_0 : of_int 0 = 0%Qc.
Proof. reflexivity. Qed.

Lemma of_int_neq_0 (z : Z) : z <> 0 -> of_int z <> 0%Qc.
Proof. intros Hz E. apply Hz, of_int_inj. now rewrite of_int_0. Qed.

End NumFacts.

(** ** [linspace] *)

Section Linspace.

Import Num.

Lemma linspace_neg (a b : Qc) (n : Z) : n < 0 -> linspace a b n = Raise ValueError.
Proof.
  intros Hn. unfold linspace. destruct (Z.ltb_spec n 0); [reflexivity | lia].
Qed.

Lemma linspace_zero (a b : Qc) : linspace a b 0 = Ok [].
Proof. reflexivity. Qed.

Lemma linspace_one (a b : Qc) : linspace a b 1 = Ok [a].
Proof.
  unfold linspace, arange.
  change (Z.to_nat 1) with 1%nat. change (1 <? 1) with false.
  change (1 <? 0) with false. change (0 <? 1 - 1) with false.
  cbn [seq map Z.of_nat]. do 2 f_equal. rewrite of_int_0. ring.
Qed.

(** From two points on, NumPy's construction is the evenly spaced
    sequence, and overwriting the last entry changes nothing. *)
Lemma linspace_evenly (a b : Qc) (n : Z) :
  2 <= n -> linspace a b n = Ok (evenly_spaced a b n).
Proof.
  intros Hn. unfold linspace, evenly_spaced, arange.
  destruct (Z.ltb_spec n 0); [lia|].
  destruct (Z.ltb_spec 0 (n - 1)); [|lia].
  destruct (Z.ltb_spec 1 n); [|lia].
  assert (Hd : of_int (n - 1) <> 0%Qc) by (apply of_int_neq_0; lia).
  f_equal.
  destruct (Z.to_nat n) as [|k] eqn:Ek; [lia|].
  assert (Hk : Z.of_nat k = n - 1) by lia.
  set (step := ((b - a) / of_int (n - 1))%Qc).
  assert (Hpts :
    map (fun v => (v + a)%Qc)
        (if Qc_eq_bool step 0
         then map (fun v => (v / of_int (n - 1) * (b - a))%Qc)
                  (map (fun i => of_int (Z.of_nat i)) (seq 0 (S k)))
         else map (fun v => (v * step)%Qc)
                  (map (fun i => of_int (Z.of_nat i)) (seq 0 (S k))))
    = map (fun i => (a + of_int (Z.of_nat i) * step)%Qc) (seq 0 (S k))).
  { destruct (Qc_eq_bool step 0); rewrite !map_map; apply map_ext; intros i;
      unfold step; field; exact Hd. }
  rewrite Hpts. rewrite seq_S, map_app. cbn [map Nat.add].
  unfold set_last.
  destruct (map _ (seq 0 k) ++ [_]) eqn:El.
  - apply app_eq_nil in El. destruct El as [_ El]. discriminate.
  - rewrite <- El, removelast_last. f_equal. f_equal.
    rewrite Hk. unfold step. field. exact Hd.
Qed.

Lemma evenly_spaced_length (a b : Qc) (n : Z) :
  length (evenly_spaced a b n) = Z.to_nat n.
Proof. unfold evenly_spaced. now rewrite length_map, length_seq. Qed.

Lemma linspace_length (a b : Qc) (n : Z) (l : list Qc) :
  linspace a b n = Ok l -> length l = Z.to_nat n.
Proof.
  intros E.
  destruct (Z.lt_ge_cases n 0) as [Hneg|Hpos].
  { rewrite linspace_neg in E by exact Hneg. discriminate. }
  destruct (Z.eq_dec n 0) as [->|N0].
  { rewrite linspace_zero in E. now injection E as <-. }
  destruct (Z.eq_dec n 1) as [->|N1].
  { rewrite linspace_one in E. now injection E as <-. }
  rewrite linspace_evenly in E by lia. injection E as <-.
  apply evenly_spaced_length.
Qed.


Lemma linspace_unit (n : Z) : 0 <= n -> linspace 0 1 n = Ok (unit_grid n).
Proof.
  intros Hn.
  destruct (Z.eq_dec n 0) as [->|N0]; [reflexivity|].
  destruct (Z.eq_dec n 1) as [->|N1].
  { rewrite linspace_one. reflexivity. }
  rewrite linspace_evenly by lia. f_equal.
  unfold evenly_spaced, unit_grid. apply map_ext. intros i.
  field. apply of_int_neq_0. lia.
Qed.

End Linspace.

(** Reading an attribute off a record that is known. *)
Ltac fields :=
  cbn [fst snd set_crop set_norm_sample_idxs set_durations
       _video_width _video_height _max_x_shift _max_y_shift _min_duration
       _max_duration _num_samples _crop_y1y2x1x2 _norm_sample_idxs] in *.

(** ** Construction *)

Section Construction.

Context {G : Type} `{NumpyRandom G}.

(** What a successful [__init__] has done, draw by draw. *)
Lemma init_inv W Ht mx my dur n g s g' :
  __init__ (W, Ht) (mx, my) dur n g = Ok (s, g') ->
  0 <= mx /\ 0 <= my /\ 0 <= n /\
  exists g1 g2 g3 l,
    let x1 := fst (randint_draw 0 (mx + 1) g) in
    let y1 := fst (randint_draw 0 (my + 1) g1) in
    let r1 := fst (rand_draw g2) in
    let r2 := fst (rand_draw g3) in
    let lo := fst (Num.sorted2 dur) in
    let hi := snd (Num.sorted2 dur) in
    g1 = snd (randint_draw 0 (mx + 1) g) /\
    g2 = snd (randint_draw 0 (my + 1) g1) /\
    g3 = snd (rand_draw g2) /\
    g' = snd (rand_draw g3) /\
    Num.linspace (earliest_norm_sample lo hi r1 r2)
                 (latest_norm_sample lo hi r1 r2) n = Ok l /\
    s = mkSampler W Ht mx my lo hi n
                  (y1, y1 + (Ht - my), x1, x1 + (W - mx)) l.
Proof.
  unfold __init__, _get_randomized_crop_coords,
    _get_randomized_norm_sampling_indices, bind, assign, self, ret, lift,
    np_random_randint, np_random_rand.
  destruct (Num.sorted2 dur) as [lo hi]. fields.
  destruct (Z.ltb_spec 0 (mx + 1)); [|discriminate].
  destruct (randint_draw 0 (mx + 1) g) as [x1 g1] eqn:E1.
  destruct (Z.ltb_spec 0 (my + 1)); [|discriminate].
  destruct (randint_draw 0 (my + 1) g1) as [y1 g2] eqn:E2.
  destruct (rand_draw g2) as [r1 g3] eqn:E3.
  destruct (rand_draw g3) as [r2 g4] eqn:E4. fields.
  match goal with |- context [Num.linspace ?a ?b n] =>
    destruct (Num.linspace a b n) as [l|e] eqn:El; [|discriminate] end.
  intros [= <- <-].
  repeat split; try lia.
  - unfold Num.linspace in El. destruct (Z.ltb_spec n 0); [discriminate | lia].
  - exists g1, g2, g3, l. cbn [fst snd]. rewrite E2, E3, E4. cbn [fst snd].
    repeat split; try reflexivity. exact El.
Qed.

Lemma disable_random_shift_run (s : Sampler) (g : G) :
  disable_random_shift s g =
  Ok (tt,
      set_crop (Num.py_int (Num.truediv (_max_y_shift s) 2),
                Num.py_int (Num.truediv (_max_y_shift s) 2)
                + (_video_height s - _max_y_shift s),
                Num.py_int (Num.truediv (_max_x_shift s) 2),
                Num.py_int (Num.truediv (_max_x_shift s) 2)
                + (_video_width s - _max_x_shift s)) s,
      g).
Proof. reflexivity. Qed.

(** With non-negative shifts the centred rectangle is the one of the
    data model, with floors of the halves. *)
Lemma disable_random_shift_centered (s : Sampler) (g : G) :
  0 <= _max_x_shift s -> 0 <= _max_y_shift s ->
  disable_random_shift s g = Ok (tt, set_crop (centered_crop s) s, g).
Proof.
  intros Hx Hy. rewrite disable_random_shift_run. unfold centered_crop.
  now rewrite !py_int_half by assumption.
Qed.

(** With both bounds at one, the window is the whole of [[0, 1]] whatever
    the draws are. *)
Lemma full_window (r1 r2 : Qc) :
  earliest_norm_sample 1 1 r1 r2 = 0%Qc /\ latest_norm_sample 1 1 r1 r2 = 1%Qc.
Proof.
  unfold latest_norm_sample, earliest_norm_sample, norm_sample_duration.
  split; ring.
Qed.

Lemma disable_random_sample_timing_unfold (s : Sampler) (g : G) :
  disable_random_sample_timing s g =
  match Num.linspace 0 1 (_num_samples s) with
  | Ok l => Ok (tt, set_norm_sample_idxs l (set_durations 1 1 s), after_two_draws g)
  | Raise e => Raise e
  end.
Proof.
  unfold disable_random_sample_timing, _get_randomized_norm_sampling_indices,
    bind, assign, self, lift, np_random_rand, after_two_draws.
  destruct (rand_draw g) as [r1 g1]. fields.
  destruct (rand_draw g1) as [r2 g2]. fields.
  destruct (full_window r1 r2) as [-> ->].
  destruct (Num.linspace 0 1 (_num_samples s)); reflexivity.
Qed.

Lemma disable_random_sample_timing_run (s : Sampler) (g : G) :
  0 <= _num_samples s ->
  disable_random_sample_timing s g =
  Ok (tt,
      set_norm_sample_idxs (Num.unit_grid (_num_samples s)) (set_durations 1 1 s),
      after_two_draws g).
Proof.
  intros Hn. rewrite disable_random_sample_timing_unfold.
  now rewrite linspace_unit by exact Hn.
Qed.

Lemma disable_random_sample_timing_inv (s s' : Sampler) (g g' : G) :
  disable_random_sample_timing s g = Ok (tt, s', g') ->
  0 <= _num_samples s /\
  s' = set_norm_sample_idxs (Num.unit_grid (_num_samples s)) (set_durations 1 1 s).
Proof.
  intros E. destruct (Z.lt_ge_cases (_num_samples s) 0) as [Hneg|Hpos].
  - rewrite disable_random_sample_timing_unfold, linspace_neg in E by exact Hneg.
    discriminate.
  - rewrite disable_random_sample_timing_run in E by exact Hpos.
    injection E as <- _. auto.
Qed.

(** What holds of every sampler object. *)
Lemma Constructed_inv (s : Sampler) :
  Constructed s ->
  0 <= _max_x_shift s /\ 0 <= _max_y_shift s /\ 0 <= _num_samples s /\
  List.length (_norm_sample_idxs s) = Z.to_nat (_num_samples s) /\
  crop_rect_ok s.
Proof.
  induction 1 as [[W Ht] [mx my] dur n g s g' Hinit
                 | s g s' g' Hs IH Hrun
                 | s g s' g' Hs IH Hrun].
  - apply init_inv in Hinit.
    destruct Hinit as (Hx & Hy & Hn & g1 & g2 & g3 & l & _ & _ & _ & _ & Hl & ->).
    fields. refine (conj Hx (conj Hy (conj Hn (conj _ _)))).
    + now apply linspace_length in Hl.
    + unfold crop_rect_ok, crop_rect_spec. fields.
      pose proof (randint_draw_range 0 (mx + 1) g ltac:(lia)).
      pose proof (randint_draw_range 0 (my + 1) g1 ltac:(lia)).
      lia.
  - destruct IH as (Hx & Hy & Hn & Hl & Hc).
    rewrite disable_random_shift_centered in Hrun by assumption.
    injection Hrun as <- _. fields. refine (conj Hx (conj Hy (conj Hn (conj Hl _)))).
    unfold crop_rect_ok, crop_rect_spec, centered_crop. fields.
    pose proof (Z.div_pos (_max_x_shift s) 2 Hx ltac:(lia)).
    pose proof (Z.div_pos (_max_y_shift s) 2 Hy ltac:(lia)).
    pose proof (Z.div_le_upper_bound (_max_x_shift s) 2 (_max_x_shift s)
                  ltac:(lia) ltac:(lia)).
    pose proof (Z.div_le_upper_bound (_max_y_shift s) 2 (_max_y_shift s)
                  ltac:(lia) ltac:(lia)).
    lia.
  - destruct IH as (Hx & Hy & Hn & Hl & Hc).
    apply disable_random_sample_timing_inv in Hrun. destruct Hrun as [_ ->].
    fields. refine (conj Hx (conj Hy (conj Hn (conj _ Hc)))).
    unfold Num.unit_grid. now rewrite length_map, length_seq.
Qed.

End Construction.

(** ** Sample positions *)

Section Ascending.

Context {A B : Type} (leA : A -> A -> Prop) (leB : B -> B -> Prop).



End Ascending.

Section Positions.

Import Num.








End Positions.

Section Timing.

Context {G : Type} `{NumpyRandom G}.
Import Num.



Lemma rounded_index_range (T : Z) (p : Qc) :
  1 <= T -> in_unit_interval p -> 0 <= rounded_index T p <= T - 1.
Proof.
  intros HT [Hp Hp']. apply rint_between.
  - rewrite of_int_0. rewrite <- (Qcmult_0_l (of_int (T - 1))).
    apply Qcmult_le_compat_r; [exact Hp|].
    change (Q2Qc 0) with (of_int 0). apply of_int_le. lia.
  - rewrite <- (Qcmult_1_l (of_int (T - 1))) at 2.
    apply Qcmult_le_compat_r; [exact Hp'|].
    change (Q2Qc 0) with (of_int 0). apply of_int_le. lia.
Qed.

(** The index the code computes is the rounded index whenever that one
    is a 32-bit value. *)
Lemma frame_index_rounded (T : Z) (p : Qc) :
  fits_int32 (rounded_index T p) = true ->
  np_int32 (np_round (of_int (T - 1) * p)%Qc) = rounded_index T p.
Proof.
  unfold rounded_index. rewrite (Qcmult_comm p). apply np_int32_round.
Qed.

End Timing.

(** ** The crop rectangle *)

Section CropRectangle.

Context {G : Type} `{NumpyRandom G}.

(** C2.  A sampler constructed with [0 <= max_x_shift <= video_width] and
    [0 <= max_y_shift <= video_height] has a crop rectangle
    [(y1, y2, x1, x2)] of height [video_height - max_y_shift] and width
    [video_width - max_x_shift], with [0 <= x1 <= max_x_shift],
    [0 <= y1 <= max_y_shift], [x2 <= video_width] and
    [y2 <= video_height] (and [x1 <= x2], [y1 <= y2]), both as drawn by
    the constructor and as recentred by [disable_random_shift], which
    always returns. *)
Theorem crop_rect_within_frame W Ht mx my dur n (g : G) s g' :
  0 <= mx <= W -> 0 <= my <= Ht ->
  __init__ (W, Ht) (mx, my) dur n g = Ok (s, g') ->
  (crop_rect_spec W Ht mx my (_crop_y1y2x1x2 s) /\
   let '(y1, y2, x1, x2) := _crop_y1y2x1x2 s in x1 <= x2 /\ y1 <= y2) /\
  forall g1 : G, exists s1,
    disable_random_shift s g1 = Ok (tt, s1, g1) /\
    crop_rect_spec W Ht mx my (_crop_y1y2x1x2 s1) /\
    let '(y1, y2, x1, x2) := _crop_y1y2x1x2 s1 in x1 <= x2 /\ y1 <= y2.
Proof.
  intros Hx Hy Hinit.
  pose proof (Constructed_init _ _ _ _ _ _ _ Hinit) as Hs.
  assert (Hs1 : forall g1 : G, Constructed (set_crop (centered_crop s) s)).
  { intros g1. eapply Constructed_shift; [exact Hs|].
    apply (disable_random_shift_centered s g1); apply (Constructed_inv s Hs). }
  pose proof (Constructed_inv s Hs) as (_ & _ & _ & _ & Hc).
  pose proof (fun g1 => Constructed_inv _ (Hs1 g1)) as Hc1.
  apply init_inv in Hinit.
  destruct Hinit as (_ & _ & _ & g1 & g2 & g3 & l & _ & _ & _ & _ & _ & ->).
  unfold crop_rect_ok in Hc. fields. split.
  - split; [exact Hc|]. unfold crop_rect_spec in Hc. lia.
  - intros g0. eexists. split.
    + apply disable_random_shift_centered; fields; lia.
    + destruct (Hc1 g0) as (_ & _ & _ & _ & Hc0).
      unfold crop_rect_ok in Hc0. fields. split; [exact Hc0|].
      unfold crop_rect_spec, centered_crop in *. fields. lia.
Qed.


End CropRectangle.

(** ** Which attributes each method touches *)

Section FrameConditions.

Context {G : Type} `{NumpyRandom G}.

Lemma crop_run (f : frame) (s : Sampler) (g : G) :
  exists out, crop f s g = Ok (out, s, g).
Proof.
  unfold crop, bind, self, ret.
  destruct (_crop_y1y2x1x2 s) as [[[y1 y2] x1] x2]. eauto.
Qed.

Lemma get_xy_shift_run (s : Sampler) (g : G) :
  exists out, get_xy_shift s g = Ok (out, s, g).
Proof.
  unfold get_xy_shift, bind, self, ret.
  destruct (_crop_y1y2x1x2 s) as [[[y1 y2] x1] x2]. eauto.
Qed.

Lemma get_frame_indices_run (T : Z) (s : Sampler) (g : G) :
  get_frame_indices T s g =
  Ok (map (fun p => Num.np_int32 (Num.np_round (Num.of_int (T - 1) * p)%Qc))
          (_norm_sample_idxs s), s, g).
Proof. reflexivity. Qed.

(** C8.  [disable_random_shift] always returns and changes the crop
    rectangle only: positions, duration bounds and construction
    parameters stay.  [disable_random_sample_timing] raises on a negative
    sample count and otherwise changes the duration bounds and the
    positions only: the crop rectangle and the other construction
    parameters stay.  [crop], [get_xy_shift]
    and [get_frame_indices] always return and leave the whole object (and
    the generator) as it was. *)
Theorem methods_touch_only_their_fields (s : Sampler) (g : G) :
  (exists s1, disable_random_shift s g = Ok (tt, s1, g) /\
              _norm_sample_idxs s1 = _norm_sample_idxs s /\
              _min_duration s1 = _min_duration s /\
              _max_duration s1 = _max_duration s /\
              construction_params s1 = construction_params s) /\
  ((_num_samples s < 0 /\
    disable_random_sample_timing s g = Raise ValueError) \/
   (exists s1 g1, disable_random_sample_timing s g = Ok (tt, s1, g1) /\
                  _crop_y1y2x1x2 s1 = _crop_y1y2x1x2 s /\
                  construction_params s1 = construction_params s)) /\
  (forall f, exists out, crop f s g = Ok (out, s, g)) /\
  (exists out, get_xy_shift s g = Ok (out, s, g)) /\
  (forall T, exists out, get_frame_indices T s g = Ok (out, s, g)).
Proof.
  split; [|split; [|split; [|split]]].
  - eexists. split; [apply disable_random_shift_run|]. fields. auto.
  - destruct (Z.lt_ge_cases (_num_samples s) 0) as [Hneg|Hpos].
    + left. split; [exact Hneg|].
      now rewrite disable_random_sample_timing_unfold, linspace_neg.
    + right. do 2 eexists.
      split; [now apply disable_random_sample_timing_run|]. split; reflexivity.
  - intros f. apply crop_run.
  - apply get_xy_shift_run.
  - intros T. eexists. apply get_frame_indices_run.
Qed.

End FrameConditions.

(** ** Frame indices and the timing mutator *)

Section TimingClaims.

Context {G : Type} `{NumpyRandom G}.
Import Num.


Lemma unit_grid_ends (n : Z) :
  2 <= n -> hd 0%Qc (unit_grid n) = 0%Qc /\ last (unit_grid n) 0%Qc = 1%Qc.
Proof.
  intros Hn. unfold unit_grid.
  destruct (Z.to_nat n) as [|k] eqn:Ek; [lia|]. split.
  - cbn [seq map hd Z.of_nat]. rewrite of_int_0. field. apply of_int_neq_0. lia.
  - rewrite seq_S, map_app. cbn [map Nat.add]. rewrite last_last.
    replace (Z.of_nat k) with (n - 1) by lia. field. apply of_int_neq_0. lia.
Qed.






End TimingClaims.

(** ** The median reduction *)

Section MedianFacts.

Import Num.

Lemma nth_map_lt {A B : Type} (f : A -> B) (l : list A) (i : nat) (d : A) (d' : B) :
  (i < List.length l)%nat -> nth i (map f l) d' = f (nth i l d).
Proof.
  intros Hi. rewrite (nth_indep _ d' (f d)) by now rewrite length_map.
  apply map_nth.
Qed.

Lemma sort_length (l : list Z) : List.length (ZSort.sort l) = List.length l.
Proof. symmetry. apply Permutation_length, ZSort.Permuted_sort. Qed.

Lemma sort_In (l : list Z) (x : Z) : In x (ZSort.sort l) -> In x l.
Proof.
  apply Permutation_in, Permutation_sym, ZSort.Permuted_sort.
Qed.

Lemma sorted_nth_In (l : list Z) (i : nat) :
  (i < List.length l)%nat -> In (nth i (ZSort.sort l) 0) l.
Proof.
  intros Hi. apply sort_In, nth_In. now rewrite sort_length.
Qed.

Lemma mean_between (lo hi x y : Qc) :
  (lo <= x)%Qc -> (x <= hi)%Qc -> (lo <= y)%Qc -> (y <= hi)%Qc ->
  (lo <= (x + y) / (1 + 1))%Qc /\ ((x + y) / (1 + 1) <= hi)%Qc.
Proof.
  intros. qc2q. change (this 1%Qc) with 1%Q.
  setoid_replace (/ (1 + 1))%Q with (1 # 2)%Q by reflexivity. split; lra.
Qed.

(** The median of a non-empty sample lies between any bounds of the
    sample. *)
Lemma median_between (lo hi : Z) (vs : list Z) :
  vs <> [] -> Forall (fun v => lo <= v <= hi) vs ->
  (of_int lo <= median vs)%Qc /\ (median vs <= of_int hi)%Qc.
Proof.
  intros Hne Hall. rewrite Forall_forall in Hall.
  assert (Hn : (0 < List.length vs)%nat) by (destruct vs; [easy | cbn; lia]).
  assert (Hup : (List.length vs / 2 < List.length vs)%nat)
    by (apply Nat.div_lt; lia).
  pose proof (Hall _ (sorted_nth_In vs _ Hup)) as Hu.
  assert (Hlow : (List.length vs / 2 - 1 < List.length vs)%nat) by lia.
  pose proof (Hall _ (sorted_nth_In vs _ Hlow)) as Hl.
  unfold median. destruct (Nat.even (List.length vs)).
  - apply mean_between; apply of_int_le; lia.
  - split; apply of_int_le; lia.
Qed.

Lemma median_const (v : Z) (vs : list Z) :
  vs <> [] -> Forall (eq v) vs -> median vs = of_int v.
Proof.
  intros Hne Hall.
  destruct (median_between v v vs Hne) as [Hlo Hhi].
  - eapply Forall_impl; [|exact Hall]. intros a <-. lia.
  - now apply Qcle_antisym.
Qed.

(** On a float between 0 and 255 the conversion to [uint8] after rounding
    is the rounding, which is also its clamping to the pixel range. *)
Lemma np_uint8_round_clamp (m : Qc) :
  (of_int 0 <= m)%Qc -> (m <= of_int 255)%Qc ->
  np_uint8 (np_round m) = clamp_pixel (rint m) /\ 0 <= rint m <= 255.
Proof.
  intros Hlo Hhi. pose proof (rint_between 0 255 m Hlo Hhi) as Hr.
  split; [|exact Hr].
  unfold np_uint8, np_round, clamp_pixel. rewrite py_int_of_int.
  rewrite Z.mod_small by lia. lia.
Qed.

Lemma np_uint8_round_of_int (v : Z) :
  0 <= v <= 255 -> np_uint8 (np_round (of_int v)) = v.
Proof.
  intros Hv. unfold np_uint8, np_round.
  rewrite rint_of_int, py_int_of_int. apply Z.mod_small. lia.
Qed.

End MedianFacts.

(** ** Stacks and their columns *)

Section Columns.

Context {A : Type}.

Lemma columns_of_length (first : list A) (rest : list (list A)) :
  List.length (columns_of first rest) = List.length first.
Proof.
  revert rest. induction first as [|a first IH]; intros rest; cbn; [reflexivity|].
  now rewrite IH.
Qed.

Lemma heads_nth (rest : list (list A)) (d : A) :
  Forall (fun r => r <> []) rest ->
  flat_map (firstn 1) rest = map (fun r => nth 0 r d) rest.
Proof.
  induction 1 as [|r rest Hr _ IH]; [reflexivity|].
  cbn [flat_map map]. rewrite IH. destruct r; [easy | reflexivity].
Qed.

Lemma columns_of_nth (first : list A) (rest : list (list A)) (i : nat) (d : A) :
  Forall (fun r => List.length r = List.length first) rest ->
  (i < List.length first)%nat ->
  nth i (columns_of first rest) [] = nth i first d :: map (fun r => nth i r d) rest.
Proof.
  revert rest i. induction first as [|a first IH]; intros rest i Hlen Hi;
    [cbn in Hi; lia|].
  destruct i as [|i]; cbn [columns_of nth].
  - f_equal. apply heads_nth. eapply Forall_impl; [|exact Hlen].
    intros r Hr ->. discriminate Hr.
  - rewrite (IH (map (@tl A) rest) i).
    + f_equal. rewrite map_map. apply map_ext_in. intros r Hr.
      destruct r; [now destruct i | reflexivity].
    + apply Forall_map. eapply Forall_impl; [|exact Hlen].
      intros r Hr. destruct r; cbn in *; [discriminate | lia].
    + cbn in Hi. lia.
Qed.

(** Column [i] of a stack of lists of length [n] holds the entries [i] of
    the members. *)
Lemma columns_nth (stack : list (list A)) (n i : nat) (d : A) :
  stack <> [] -> Forall (fun r => List.length r = n) stack -> (i < n)%nat ->
  List.length (columns stack) = n /\
  nth i (columns stack) [] = map (fun r => nth i r d) stack.
Proof.
  intros Hne Hlen Hi. destruct stack as [|first rest]; [easy|].
  inversion Hlen as [|? ? Hfirst Hrest]; subst. cbn [columns map]. split.
  - apply columns_of_length.
  - apply columns_of_nth; [|exact Hi].
    eapply Forall_impl; [|exact Hrest]. auto.
Qed.

Lemma columns_length (stack : list (list A)) (n : nat) :
  stack <> [] -> Forall (fun r => List.length r = n) stack ->
  List.length (columns stack) = n.
Proof.
  intros Hne Hlen. destruct stack as [|first rest]; [easy|].
  inversion Hlen; subst. apply columns_of_length.
Qed.


End Columns.

(** ** The background of a stack of frames *)

Section Reduction.

Import Num.

Lemma map_const_repeat {A B : Type} (g : A -> B) (v : B) (l : list A) :
  Forall (fun x => g x = v) l -> map g l = repeat v (List.length l).
Proof.
  induction 1 as [|x l Hx _ IH]; [reflexivity|]. cbn. now rewrite Hx, IH.
Qed.

Lemma dims_uint8_frame (h w c : nat) (f : frame) :
  uint8_frame h w c f -> dims f = repeat (repeat c w) h.
Proof.
  intros [Hh Hrows]. unfold dims. rewrite <- Hh. apply map_const_repeat.
  eapply Forall_impl; [|exact Hrows]. intros row [Hw Hpx].
  rewrite <- Hw. apply map_const_repeat.
  eapply Forall_impl; [|exact Hpx]. now intros px [Hc _].
Qed.

Lemma dims_eqb_refl (d : list (list nat)) : dims_eqb d d = true.
Proof. unfold dims_eqb. destruct (list_eq_dec _ d d); congruence. Qed.

Lemma homogeneous_common_dims (d : list (list nat)) (stack : list frame) :
  Forall (fun f => dims f = d) stack -> homogeneous stack = true.
Proof.
  intros Hall. destruct stack as [|f fs]; [reflexivity|].
  inversion Hall as [|? ? Hf Hfs]; subst. cbn [homogeneous].
  apply forallb_forall. intros f' Hin. rewrite Forall_forall in Hfs.
  rewrite (Hfs f' Hin). apply dims_eqb_refl.
Qed.

(** What is found at one place of a well-shaped frame. *)
Lemma uint8_frame_at (h w c : nat) (f : frame) (i j k : nat) :
  uint8_frame h w c f -> (i < h)%nat -> (j < w)%nat -> (k < c)%nat ->
  List.length (nth i f []) = w /\
  List.length (nth j (nth i f []) []) = c /\
  0 <= pixel_at f i j k <= 255.
Proof.
  unfold pixel_at, uint8_frame in *.
  intros [Hh Hrows] Hi Hj Hk. rewrite Forall_forall in Hrows.
  assert (Hi' : (i < List.length f)%nat) by lia.
  destruct (Hrows _ (nth_In f [] Hi')) as [Hw Hpxs].
  rewrite Forall_forall in Hpxs.
  assert (Hj' : (j < List.length (nth i f []))%nat) by (rewrite Hw; exact Hj).
  destruct (Hpxs _ (nth_In _ [] Hj')) as [Hc Hvs].
  rewrite Forall_forall in Hvs.
  assert (Hk' : (k < List.length (nth j (nth i f []) []))%nat)
    by (rewrite Hc; exact Hk).
  split; [exact Hw|]. split; [exact Hc|].
  exact (Hvs _ (nth_In _ 0 Hk')).
Qed.

Lemma stack_rows (h w c : nat) (stack : list frame) (i : nat) :
  stack <> [] -> Forall (uint8_frame h w c) stack -> (i < h)%nat ->
  List.length (columns stack) = h /\
  nth i (columns stack) [] = map (fun f => nth i f []) stack.
Proof.
  intros Hne Hall Hi. apply columns_nth; [exact Hne | | exact Hi].
  eapply Forall_impl; [|exact Hall]. now intros f [Hh _].
Qed.

Lemma stack_pixels (h w c : nat) (stack : list frame) (i j : nat) :
  stack <> [] -> Forall (uint8_frame h w c) stack -> (i < h)%nat -> (j < w)%nat ->
  List.length (columns (map (fun f => nth i f []) stack)) = w /\
  nth j (columns (map (fun f => nth i f []) stack)) []
  = map (fun f => nth j (nth i f []) []) stack.
Proof.
  intros Hne Hall Hi Hj.
  destruct (columns_nth (map (fun f : frame => nth i f []) stack) w j [])
    as [Hlen Hnth]; try assumption.
  - destruct stack; [easy | discriminate].
  - apply Forall_map. eapply Forall_impl; [|exact Hall]. intros f Hf.
    destruct c as [|c'].
    + destruct Hf as [Hh Hrows]. rewrite Forall_forall in Hrows.
      assert (Hi' : (i < List.length f)%nat) by lia.
      now destruct (Hrows _ (nth_In f [] Hi')).
    + now destruct (uint8_frame_at h w (S c') f i j 0 Hf Hi Hj ltac:(lia)).
  - split; [exact Hlen|]. rewrite Hnth. now rewrite map_map.
Qed.

Lemma stack_values (h w c : nat) (stack : list frame) (i j k : nat) :
  stack <> [] -> Forall (uint8_frame h w c) stack ->
  (i < h)%nat -> (j < w)%nat -> (k < c)%nat ->
  List.length (columns (map (fun f => nth j (nth i f []) []) stack)) = c /\
  nth k (columns (map (fun f => nth j (nth i f []) []) stack)) []
  = map (fun f => pixel_at f i j k) stack.
Proof.
  intros Hne Hall Hi Hj Hk.
  destruct (columns_nth (map (fun f : frame => nth j (nth i f []) []) stack) c k 0)
    as [Hlen Hnth]; try assumption.
  - destruct stack; [easy | discriminate].
  - apply Forall_map. eapply Forall_impl; [|exact Hall]. intros f Hf.
    now destruct (uint8_frame_at h w c f i j k Hf Hi Hj Hk) as (_ & Hc & _).
  - split; [exact Hlen|]. rewrite Hnth. now rewrite map_map.
Qed.

Lemma stack_values_range (h w c : nat) (stack : list frame) (i j k : nat) :
  Forall (uint8_frame h w c) stack ->
  (i < h)%nat -> (j < w)%nat -> (k < c)%nat ->
  Forall (fun v => 0 <= v <= 255) (map (fun f => pixel_at f i j k) stack).
Proof.
  intros Hall Hi Hj Hk. apply Forall_map.
  eapply Forall_impl; [|exact Hall]. intros f Hf.
  now destruct (uint8_frame_at h w c f i j k Hf Hi Hj Hk) as (_ & _ & Hv).
Qed.

Lemma median_background_homogeneous (stack : list frame) :
  stack <> [] -> homogeneous stack = true ->
  median_background stack = Ok (BgArray (reduced stack)).
Proof.
  intros Hne Hhom. unfold median_background, np_median_axis0. rewrite Hhom.
  destruct stack as [|f fs]; [easy|]. cbn [uint8_round]. do 2 f_equal.
  unfold reduced. rewrite map_map. apply map_ext. intros rows.
  rewrite !map_map. apply map_ext. intros pixels. now rewrite !map_map.
Qed.

Lemma median_background_reduced (h w c : nat) (stack : list frame) :
  stack <> [] -> Forall (uint8_frame h w c) stack ->
  median_background stack = Ok (BgArray (reduced stack)).
Proof.
  intros Hne Hall. apply median_background_homogeneous; [exact Hne|].
  apply (homogeneous_common_dims (repeat (repeat c w) h)).
  eapply Forall_impl; [|exact Hall]. intros f. apply dims_uint8_frame.
Qed.

Lemma reduced_length (h w c : nat) (stack : list frame) :
  stack <> [] -> Forall (uint8_frame h w c) stack ->
  List.length (reduced stack) = h.
Proof.
  intros Hne Hall. unfold reduced. rewrite length_map.
  apply columns_length; [exact Hne|].
  eapply Forall_impl; [|exact Hall]. now intros f [Hh _].
Qed.

Lemma reduced_row (h w c : nat) (stack : list frame) (i : nat) :
  stack <> [] -> Forall (uint8_frame h w c) stack -> (i < h)%nat ->
  nth i (reduced stack) []
  = map (fun pixels => map (fun values => np_uint8 (np_round (median values)))
                           (columns pixels))
        (columns (map (fun f => nth i f []) stack)).
Proof.
  intros Hne Hall Hi.
  destruct (stack_rows h w c stack i Hne Hall Hi) as [Hlen1 Hnth1].
  unfold reduced. rewrite (nth_map_lt _ (columns stack) i [] []) by lia.
  now rewrite Hnth1.
Qed.

Lemma reduced_pixel (h w c : nat) (stack : list frame) (i j : nat) :
  stack <> [] -> Forall (uint8_frame h w c) stack -> (i < h)%nat -> (j < w)%nat ->
  List.length (nth i (reduced stack) []) = w /\
  nth j (nth i (reduced stack) []) []
  = map (fun values => np_uint8 (np_round (median values)))
        (columns (map (fun f => nth j (nth i f []) []) stack)).
Proof.
  intros Hne Hall Hi Hj.
  destruct (stack_pixels h w c stack i j Hne Hall Hi Hj) as [Hlen2 Hnth2].
  rewrite (reduced_row h w c) by assumption. rewrite length_map.
  split; [exact Hlen2|].
  rewrite (nth_map_lt _ (columns (map (fun f => nth i f []) stack)) j [] [])
    by lia.
  now rewrite Hnth2.
Qed.

Lemma reduced_at (h w c : nat) (stack : list frame) (i j k : nat) :
  stack <> [] -> Forall (uint8_frame h w c) stack ->
  (i < h)%nat -> (j < w)%nat -> (k < c)%nat ->
  List.length (nth j (nth i (reduced stack) []) []) = c /\
  pixel_at (reduced stack) i j k
  = np_uint8 (np_round (median (map (fun f => pixel_at f i j k) stack))).
Proof.
  intros Hne Hall Hi Hj Hk.
  destruct (stack_values h w c stack i j k Hne Hall Hi Hj Hk) as [Hlen3 Hnth3].
  destruct (reduced_pixel h w c stack i j Hne Hall Hi Hj) as [_ Hpx].
  unfold pixel_at. rewrite Hpx, length_map. split; [exact Hlen3|].
  rewrite (nth_map_lt _ _ k [] 0) by lia.
  now rewrite Hnth3.
Qed.

Lemma reduced_value (h w c : nat) (stack : list frame) (i j k : nat) :
  stack <> [] -> Forall (uint8_frame h w c) stack ->
  (i < h)%nat -> (j < w)%nat -> (k < c)%nat ->
  pixel_at (reduced stack) i j k
  = clamp_pixel (rint (median (map (fun f => pixel_at f i j k) stack))) /\
  0 <= pixel_at (reduced stack) i j k <= 255.
Proof.
  intros Hne Hall Hi Hj Hk.
  destruct (reduced_at h w c stack i j k Hne Hall Hi Hj Hk) as [_ ->].
  destruct (median_between 0 255 (map (fun f => pixel_at f i j k) stack))
    as [Hlo Hhi].
  - destruct stack; [easy | discriminate].
  - now apply (stack_values_range h w c).
  - destruct (np_uint8_round_clamp _ Hlo Hhi) as [-> Hr]. split; [reflexivity|].
    unfold clamp_pixel. lia.
Qed.

Lemma reduced_uint8_frame (h w c : nat) (stack : list frame) :
  stack <> [] -> Forall (uint8_frame h w c) stack ->
  uint8_frame h w c (reduced stack).
Proof.
  intros Hne Hall. pose proof (reduced_length h w c stack Hne Hall) as Hlen.
  split; [exact Hlen|].
  apply Forall_forall. intros row Hrow.
  apply (In_nth _ _ []) in Hrow. destruct Hrow as (i & Hi & <-).
  rewrite Hlen in Hi.
  assert (Hw : forall j, (j < w)%nat ->
                         List.length (nth i (reduced stack) []) = w).
  { intros j Hj. now destruct (reduced_pixel h w c stack i j Hne Hall Hi Hj). }
  assert (Hroww : List.length (nth i (reduced stack) []) = w).
  { destruct w as [|w']; [|apply (Hw 0%nat); lia].
    rewrite (reduced_row h 0 c) by assumption. rewrite length_map.
    apply columns_length; [destruct stack; [easy | discriminate]|].
    apply Forall_map. eapply Forall_impl; [|exact Hall]. intros f [Hh Hrows].
    rewrite Forall_forall in Hrows.
    assert (Hi' : (i < List.length f)%nat) by lia.
    now destruct (Hrows _ (nth_In f [] Hi')). }
  split; [exact Hroww|].
  apply Forall_forall. intros px Hpx.
  apply (In_nth _ _ []) in Hpx. destruct Hpx as (j & Hj & <-).
  rewrite Hroww in Hj.
  assert (Hpxc : List.length (nth j (nth i (reduced stack) []) []) = c).
  { destruct (reduced_pixel h w c stack i j Hne Hall Hi Hj) as [_ ->].
    rewrite length_map.
    apply columns_length; [destruct stack; [easy | discriminate]|].
    apply Forall_map. eapply Forall_impl; [|exact Hall]. intros f [Hh Hrows].
    rewrite Forall_forall in Hrows.
    assert (Hi' : (i < List.length f)%nat) by lia.
    destruct (Hrows _ (nth_In f [] Hi')) as [Hfw Hpxs].
    rewrite Forall_forall in Hpxs.
    assert (Hj' : (j < List.length (nth i f []))%nat) by (rewrite Hfw; exact Hj).
    now destruct (Hpxs _ (nth_In _ [] Hj')). }
  split; [exact Hpxc|].
  apply Forall_forall. intros v Hv.
  apply (In_nth _ _ 0) in Hv. destruct Hv as (k & Hk & <-).
  rewrite Hpxc in Hk.
  now destruct (reduced_value h w c stack i j k Hne Hall Hi Hj Hk).
Qed.

Lemma map_id_in {A : Type} (g : A -> A) (l : list A) :
  (forall x, In x l -> g x = x) -> map g l = l.
Proof.
  intros Hg. rewrite <- (map_id l) at 2. now apply map_ext_in.
Qed.




Lemma is_uint8_frame_sound (h w c : nat) (f : frame) :
  is_uint8_frame h w c f = true -> uint8_frame h w c f.
Proof.
  unfold is_uint8_frame, uint8_frame. rewrite andb_true_iff, Nat.eqb_eq.
  intros [Hh Hrows]. split; [exact Hh|].
  rewrite forallb_forall in Hrows. apply Forall_forall. intros row Hrow.
  specialize (Hrows row Hrow). rewrite andb_true_iff, Nat.eqb_eq in Hrows.
  destruct Hrows as [Hw Hpxs]. split; [exact Hw|].
  rewrite forallb_forall in Hpxs. apply Forall_forall. intros px Hpx.
  specialize (Hpxs px Hpx). rewrite andb_true_iff, Nat.eqb_eq in Hpxs.
  destruct Hpxs as [Hc Hvs]. split; [exact Hc|].
  rewrite forallb_forall in Hvs. apply Forall_forall. intros v Hv.
  specialize (Hvs v Hv). rewrite andb_true_iff, !Z.leb_le in Hvs. exact Hvs.
Qed.

End Reduction.

Lemma Forall_firstn {A : Type} (P : A -> Prop) (n : nat) (l : list A) :
  Forall P l -> Forall P (firstn n l).
Proof.
  intros Hall. rewrite <- (firstn_skipn n l) in Hall.
  now apply Forall_app in Hall.
Qed.

Lemma Forall_skipn {A : Type} (P : A -> Prop) (n : nat) (l : list A) :
  Forall P l -> Forall P (skipn n l).
Proof.
  intros Hall. rewrite <- (firstn_skipn n l) in Hall.
  now apply Forall_app in Hall.
Qed.

(** ** The capture loop *)

Section Capture.

Context {G : Type} `{NumpyRandom G}.

Lemma crop_cropped (f : frame) (s : Sampler) (g : G) :
  crop f s g = Ok (cropped s f, s, g).
Proof.
  unfold crop, cropped, bind, self, ret.
  now destruct (_crop_y1y2x1x2 s) as [[[y1 y2] x1] x2].
Qed.

(** The inner loop keeps the crops of the frames it can read, prints two
    lines for each index it cannot read, and leaves the sampler and the
    generator alone. *)
Lemma sample_frames_run (idxs : list Z) (acc : list frame) (s : Sampler)
      (st : Script G) :
  exists v,
    decoded v = decoded (vread st) /\
    sample_frames idxs acc s st
    = Ok (acc ++ readable_crops (decoded (vread st)) s idxs, s,
          mkScript v
                   (stdout st
                    ++ flat_map read_error_lines (unreadable (decoded (vread st)) idxs))
                   (np_random st)).
Proof.
  revert acc st. induction idxs as [|i idxs IH]; intros acc st.
  - exists (vread st). split; [reflexivity|]. cbn. rewrite !app_nil_r.
    now destruct st.
  - cbn [sample_frames readable_crops unreadable flat_map filter].
    unfold vread_read, vread_set. cbn [decoded pos_frames].
    destruct (decoded (vread st) i) as [f|] eqn:E.
    + rewrite crop_cropped.
      destruct (IH (acc ++ [cropped s f])
                   (mkScript (mkVideoCapture (decoded (vread st)) (i + 1))
                             (stdout st) (np_random st)))
        as (v & Hv & Hrun).
      cbn [vread stdout np_random decoded] in Hv, Hrun.
      exists v. split; [exact Hv|]. rewrite Hrun. now rewrite <- app_assoc.
    + destruct (IH acc
                   (mkScript (mkVideoCapture (decoded (vread st)) i)
                             (stdout st ++ read_error_lines i) (np_random st)))
        as (v & Hv & Hrun).
      cbn [vread stdout np_random decoded] in Hv, Hrun.
      exists v. split; [exact Hv|]. rewrite Hrun.
      cbn [app flat_map]. now rewrite <- !app_assoc.
Qed.

Lemma capture_variant_run (T : Z) (s : Sampler) (st : Script G) :
  exists v,
    decoded v = decoded (vread st) /\
    capture_variant T s st
    = match median_background
              (readable_crops (decoded (vread st)) s (frame_indices T s)) with
      | Ok bg =>
          Ok (bg, s,
              mkScript v
                       (stdout st
                        ++ flat_map read_error_lines
                             (unreadable (decoded (vread st)) (frame_indices T s)))
                       (np_random st))
      | Raise e => Raise e
      end.
Proof.
  unfold capture_variant. rewrite get_frame_indices_run. fold (frame_indices T s).
  destruct (sample_frames_run (frame_indices T s) [] s
              (mkScript (vread st) (stdout st) (np_random st)))
    as (v & Hv & Hrun).
  cbn [vread stdout np_random] in Hv, Hrun.
  exists v. split; [exact Hv|]. rewrite Hrun. cbn [app]. reflexivity.
Qed.

Lemma py_slice_length {A : Type} (l : list A) (a b : Z) :
  List.length (py_slice l a b) = slice_len (List.length l) a b.
Proof.
  unfold py_slice, slice_len. now rewrite length_firstn, length_skipn.
Qed.

Lemma py_slice_Forall {A : Type} (P : A -> Prop) (l : list A) (a b : Z) :
  Forall P l -> Forall P (py_slice l a b).
Proof.
  intros Hall. unfold py_slice. now apply Forall_firstn, Forall_skipn.
Qed.

(** A crop of a well-shaped frame is well-shaped. *)
Lemma cropped_uint8_frame (s : Sampler) (h w c : nat) (f : frame) :
  uint8_frame h w c f ->
  uint8_frame (fst (crop_shape s h w)) (snd (crop_shape s h w)) c (cropped s f).
Proof.
  intros [Hh Hrows]. unfold crop_shape, cropped, slice2.
  destruct (_crop_y1y2x1x2 s) as [[[y1 y2] x1] x2]. cbn [fst snd]. split.
  - now rewrite length_map, py_slice_length, Hh.
  - apply Forall_map. apply py_slice_Forall.
    eapply Forall_impl; [|exact Hrows]. intros row [Hw Hpxs]. split.
    + now rewrite py_slice_length, Hw.
    + now apply py_slice_Forall.
Qed.

Lemma readable_crops_uint8 (dec : Z -> option frame) (s : Sampler)
      (idxs : list Z) (h w c : nat) :
  (forall i f, dec i = Some f -> uint8_frame h w c f) ->
  Forall (uint8_frame (fst (crop_shape s h w)) (snd (crop_shape s h w)) c)
         (readable_crops dec s idxs).
Proof.
  intros Hd. apply Forall_forall. intros f Hf. unfold readable_crops in Hf.
  apply in_flat_map in Hf. destruct Hf as (i & _ & Hf).
  destruct (dec i) as [f0|] eqn:E; [|easy].
  destruct Hf as [<-|[]]. apply cropped_uint8_frame. now apply (Hd i).
Qed.

(** C1, as the code has it.  For a video of [uint8] frames of one shape, a variant's
    run skips each index that cannot be read, printing its two warning
    lines, and leaves sampler and generator as they were.  If at least one
    frame was read, the background is the array holding, at each place of
    the crop, the rounded median of the values the crops of the frames that
    were read have there.  If none was read no error is raised: the
    reduction of the empty collection goes through and the scalar
    [np.uint8(nan)] is stored in place of an image. *)
Theorem capture_variant_median_of_readable (T : Z) (s : Sampler) (st : Script G)
        (h w c : nat) :
  (forall i f, decoded (vread st) i = Some f -> uint8_frame h w c f) ->
  exists v,
    decoded v = decoded (vread st) /\
    let idxs := frame_indices T s in
    let kept := readable_crops (decoded (vread st)) s idxs in
    let st' :=
      mkScript v
               (stdout st ++ flat_map read_error_lines
                               (unreadable (decoded (vread st)) idxs))
               (np_random st) in
    (kept <> [] ->
     capture_variant T s st = Ok (BgArray (reduced kept), s, st') /\
     forall i j k,
       (i < fst (crop_shape s h w))%nat -> (j < snd (crop_shape s h w))%nat ->
       (k < c)%nat ->
       pixel_at (reduced kept) i j k
       = clamp_pixel (Num.rint (median (map (fun f => pixel_at f i j k) kept)))) /\
    (kept = [] ->
     capture_variant T s st = Ok (BgScalar np_uint8_nan, s, st')).
Proof.
  intros Hd. destruct (capture_variant_run T s st) as (v & Hv & Hrun).
  exists v. split; [exact Hv|]. cbv zeta. split.
  - intros Hne.
    pose proof (readable_crops_uint8 _ s (frame_indices T s) h w c Hd) as Hall.
    split.
    + now rewrite Hrun, (median_background_reduced _ _ _ _ Hne Hall).
    + intros i j k Hi Hj Hk.
      now destruct (reduced_value _ _ _ _ i j k Hne Hall Hi Hj Hk).
  - intros Hnil. rewrite Hrun, Hnil. reflexivity.
Qed.

End Capture.

Lemma demo_sampler_init :
  __init__ (640, 480) (100, 100) (Q2Qc (1 # 4), 1%Qc) 5 demo_tape
  = Ok (demo_sampler, []).
Proof. reflexivity. Qed.

Lemma demo_sampler_Constructed : Constructed (G := Tape.t) demo_sampler.
Proof. exact (Constructed_init _ _ _ _ _ _ _ demo_sampler_init). Qed.

Lemma crop_rect_within_frame_witness :
  (0 <= 100 <= 640) /\ (0 <= 100 <= 480) /\
  crop_rect_spec 640 480 100 100 (_crop_y1y2x1x2 demo_sampler).
Proof.
  split; [lia|]. split; [lia|].
  apply (crop_rect_within_frame 640 480 100 100 (Q2Qc (1 # 4), 1%Qc) 5
           demo_tape demo_sampler []); [lia | lia | reflexivity].
Defined.



Lemma reference_sampler_Constructed : Constructed (G := Tape.t) reference_sampler.
Proof.
  pose proof (Constructed_shift demo_sampler demo_tape _ _
                demo_sampler_Constructed
                (disable_random_shift_run demo_sampler demo_tape)) as Hshift.
  refine (Constructed_timing _ demo_tape reference_sampler [500; 250] Hshift _).
  reflexivity.
Qed.









Lemma tiny_decode_uint8 (bad : Z -> bool) (i : Z) (f : frame) :
  tiny_decode bad i = Some f -> uint8_frame 3 4 3 f.
Proof.
  unfold tiny_decode. destruct (bad i); [discriminate|].
  destruct ((0 <=? i) && (i <? 5)) eqn:E; [|discriminate].
  apply andb_true_iff in E. rewrite Z.leb_le, Z.ltb_lt in E.
  intros [= <-].
  assert (Hi : i = 0 \/ i = 1 \/ i = 2 \/ i = 3 \/ i = 4) by lia.
  destruct Hi as [->|[->|[->|[->| ->]]]]; apply is_uint8_frame_sound; reflexivity.
Qed.

(** One of three reads fails: the background is the median of the other
    two crops. *)
Lemma capture_variant_median_of_readable_witness :
  (forall i f, decoded (vread (tiny_script (Z.eqb 2))) i = Some f ->
               uint8_frame 3 4 3 f) /\
  frame_indices 5 tiny_sampler = [0; 2; 4] /\
  exists v,
    capture_variant 5 tiny_sampler (tiny_script (Z.eqb 2))
    = Ok (BgArray [[[21; 235; 7]; [22; 235; 7]]; [[25; 235; 7]; [26; 235; 7]]],
          tiny_sampler,
          mkScript v (map lit ["Error reading frame @ 2.00"; "Skipping..."]%string) []).
Proof.
  assert (Hd : forall i f, decoded (vread (tiny_script (Z.eqb 2))) i = Some f ->
                           uint8_frame 3 4 3 f).
  { intros i f. apply tiny_decode_uint8. }
  split; [exact Hd|]. split; [reflexivity|].
  destruct (capture_variant_median_of_readable 5 tiny_sampler
              (tiny_script (Z.eqb 2)) 3 4 3 Hd) as (v & _ & Hkept & _).
  exists v. apply Hkept. discriminate.
Defined.

(** C1, as stated, fails when every read fails: the variant is not reported
    as an error.  All three reads of the scenario fail, the run returns
    normally with six warning lines, and a scalar zero sits where the image
    should be. *)
Lemma capture_variant_all_reads_fail_counterexample :
  frame_indices 5 tiny_sampler = [0; 2; 4] /\
  readable_crops (tiny_decode (fun _ => true)) tiny_sampler [0; 2; 4] = [] /\
  (forall e, capture_variant 5 tiny_sampler (tiny_script (fun _ => true)) <> Raise e) /\
  exists st',
    capture_variant 5 tiny_sampler (tiny_script (fun _ => true))
    = Ok (BgScalar 0, tiny_sampler, st') /\
    stdout st' = map lit ["Error reading frame @ 0.00"; "Skipping...";
                          "Error reading frame @ 2.00"; "Skipping...";
                          "Error reading frame @ 4.00"; "Skipping..."]%string.
Proof.
  split; [reflexivity|]. split; [reflexivity|]. split.
  - intros e E. vm_compute in E. discriminate E.
  - eexists. split; [vm_compute; reflexivity | reflexivity].
Qed.

(** ** Paths *)

Section PathFacts.

Import Str PosixPath.

Lemma rfind_spec (c : ascii) (s : str) :
  (rfind c s = -1 /\ Forall (fun a => a <> c) s) \/
  (0 <= rfind c s /\
   Forall (fun a => a <> c) (skipn (Z.to_nat (rfind c s + 1)) s)).
Proof.
  induction s as [|a t IH]; [left; split; [reflexivity | constructor]|].
  cbn [rfind]. destruct IH as [[Hr Hall]|[Hr Hall]].
  - rewrite Hr. cbn [Z.leb Z.compare]. destruct (Ascii.eqb_spec a c) as [->|Hac].
    + right. split; [lia|]. exact Hall.
    + left. split; [reflexivity|]. now constructor.
  - destruct (Z.leb_spec 0 (rfind c t)); [|lia]. right. split; [lia|].
    replace (Z.to_nat (rfind c t + 1 + 1)) with (S (Z.to_nat (rfind c t + 1))) by lia.
    exact Hall.
Qed.

Lemma basename_no_sep (p : str) : Forall (fun a => a <> sep) (basename p).
Proof.
  unfold basename. destruct (rfind_spec sep p) as [[-> Hall]|[_ Hall]]; assumption.
Qed.

Lemma splitext_no_sep (p : str) :
  Forall (fun a => a <> sep) p -> Forall (fun a => a <> sep) (fst (splitext p)).
Proof.
  intros Hall. unfold splitext.
  destruct (_ && _); cbn [fst]; [now apply Forall_firstn | exact Hall].
Qed.

Lemma lstrip_Forall (P : ascii -> Prop) (s : str) :
  Forall P s -> Forall P (lstrip s).
Proof.
  induction 1 as [|a t Ha Ht IH]; [constructor|].
  cbn [lstrip]. destruct (isspace a); [exact IH | now constructor].
Qed.

Lemma strip_Forall (P : ascii -> Prop) (s : str) :
  Forall P s -> Forall P (strip s).
Proof.
  intros Hall. unfold strip, rstrip.
  apply Forall_rev, lstrip_Forall, Forall_rev, lstrip_Forall, Hall.
Qed.

Lemma lower_char_sep (c : ascii) : c <> sep -> lower_char c <> sep.
Proof.
  destruct c as [[] [] [] [] [] [] [] []]; vm_compute; congruence.
Qed.

Lemma video_name_only_no_sep (video_source : str) :
  Forall (fun a => a <> sep) (video_name_only video_source).
Proof.
  unfold video_name_only.
  pose proof (splitext_no_sep _ (basename_no_sep video_source)) as Hstem.
  destruct (splitext (basename video_source)) as [name ext]. cbn [fst] in Hstem.
  unfold replace, lower. rewrite map_map. apply Forall_map.
  eapply Forall_impl; [|exact (strip_Forall _ _ Hstem)].
  intros c Hc. cbv beta.
  destruct (Ascii.eqb_spec (lower_char c) " "%char); [discriminate|].
  now apply lower_char_sep.
Qed.

(** Joining a directory that does not end in a separator with a relative
    name puts one separator between them. *)
Lemma join_plain (a b : str) :
  a <> [] -> endswith sep a = false -> startswith sep b = false ->
  join a b = a ++ [sep] ++ b.
Proof.
  intros Ha Hend Hstart. unfold join. rewrite Hstart.
  destruct a; [easy|]. now rewrite Hend.
Qed.

Lemma startswith_Forall (c : ascii) (s : str) :
  Forall (fun a => a <> c) s -> startswith c s = false.
Proof.
  intros Hall. destruct s as [|a t]; [reflexivity|].
  inversion Hall; subst. cbn. now apply Ascii.eqb_neq.
Qed.

Lemma endswith_app_Forall (c : ascii) (a b : str) :
  b <> [] -> Forall (fun x => x <> c) b -> endswith c (a ++ b) = false.
Proof.
  intros Hb Hall. unfold endswith. rewrite rev_app_distr.
  apply Forall_rev in Hall.
  destruct (rev b) as [|x t] eqn:E.
  - apply (f_equal (@rev ascii)) in E. rewrite rev_involutive in E. now subst.
  - inversion Hall; subst. cbn. now apply Ascii.eqb_neq.
Qed.

(** Where the specification's wording and the code agree on a character. *)
Lemma sanitize_char_agree (c : ascii) :
  (isspace c = true -> c = " "%char) ->
  (if Ascii.eqb (lower_char c) " "%char then "_"%char else lower_char c)
  = (if isspace c then "_"%char else lower_char c).
Proof.
  destruct c as [[] [] [] [] [] [] [] []]; vm_compute; intros Hsp;
    try reflexivity; specialize (Hsp eq_refl); discriminate Hsp.
Qed.

End PathFacts.

Section SaveBlockFacts.

Context {G : Type} `{NumpyRandom G}.
Variable abspath : str -> str.

Lemma get_xy_shift_xy_shift (s : Sampler) (g : G) :
  get_xy_shift s g = Ok (xy_shift s, s, g).
Proof.
  unfold get_xy_shift, xy_shift, bind, self, ret.
  now destruct (_crop_y1y2x1x2 s) as [[[y1 y2] x1] x2].
Qed.

Lemma save_each_run (folder : str) (pairs : list (Sampler * Background))
      (written : list (str * Background)) (g : G) :
  save_each folder pairs written g
  = Ok (written
        ++ map (fun sb => (PosixPath.join folder
                             (save_name (fst (xy_shift (fst sb)))
                                        (snd (xy_shift (fst sb)))),
                           snd sb))
               pairs,
        g).
Proof.
  revert written. induction pairs as [|[s bg] pairs IH]; intros written.
  - cbn. now rewrite app_nil_r.
  - cbn [save_each]. rewrite get_xy_shift_xy_shift.
    destruct (xy_shift s) as [x y] eqn:E. rewrite IH.
    cbn [map fst snd]. rewrite E. cbn [fst snd]. now rewrite <- app_assoc.
Qed.

(** C9, as the code has it.  The save block makes the folder
    [join(abspath(output), name)] and writes each background to
    [join(folder, (x, y).png)], [(x, y)] being the shift of its sampler;
    [name] is the basename of the video without its extension, stripped of
    leading and trailing whitespace, lowercased, each blank replaced by an
    underscore.  With a non-empty [name] and an absolute output folder that
    does not end in a separator the path reads
    [<output_dir>/<name>/(<x>, <y>).png].  The name is the one the
    specification words whenever the stem neither starts nor ends with
    whitespace and holds no whitespace other than blanks. *)
Theorem save_block_paths (ARG_OUTPUT video_source : str)
        (bg_samplers_list : list Sampler) (median_bg_frames : list Background)
        (g : G) :
  let output_dir := abspath ARG_OUTPUT in
  let stem := fst (PosixPath.splitext (PosixPath.basename video_source)) in
  let name := video_name_only video_source in
  let folder := PosixPath.join output_dir name in
  save_block abspath ARG_OUTPUT video_source bg_samplers_list median_bg_frames g
  = Ok (folder,
        map (fun sb => (PosixPath.join folder
                          (save_name (fst (xy_shift (fst sb)))
                                     (snd (xy_shift (fst sb)))),
                        snd sb))
            (combine bg_samplers_list median_bg_frames),
        g) /\
  name = Str.replace " "%char "_"%char (Str.lower (Str.strip stem)) /\
  (output_dir <> [] -> Str.endswith PosixPath.sep output_dir = false -> name <> [] ->
   forall x y,
     PosixPath.join folder (save_name x y)
     = output_dir ++ lit "/" ++ name ++ lit "/"
       ++ lit "(" ++ str_of_int x ++ lit ", " ++ str_of_int y ++ lit ").png") /\
  (Str.strip stem = stem ->
   Forall (fun c => Str.isspace c = true -> c = " "%char) stem ->
   name = spec_sanitized_basename video_source).
Proof.
  cbv zeta. split; [|split; [|split]].
  - unfold save_block. rewrite save_each_run. reflexivity.
  - unfold video_name_only.
    now destruct (PosixPath.splitext (PosixPath.basename video_source)).
  - intros Hout Hend Hname x y.
    pose proof (video_name_only_no_sep video_source) as Hsep.
    rewrite (join_plain (abspath ARG_OUTPUT) (video_name_only video_source))
      by (try assumption; now apply startswith_Forall).
    rewrite join_plain.
    + unfold save_name. change [PosixPath.sep] with (lit "/").
      now rewrite <- !app_assoc.
    + now destruct (abspath ARG_OUTPUT).
    + rewrite app_assoc. now apply endswith_app_Forall.
    + reflexivity.
  - intros Hstrip Hblank. unfold video_name_only, spec_sanitized_basename.
    destruct (PosixPath.splitext (PosixPath.basename video_source)) as [stem ext].
    cbn [fst] in *. rewrite Hstrip. unfold Str.replace, Str.lower.
    rewrite map_map. apply map_ext_in. intros c Hc.
    apply sanitize_char_agree. rewrite Forall_forall in Hblank. now apply Hblank.
Qed.

End SaveBlockFacts.

(** C9, as stated, fails on whitespace at the ends of the name and on
    whitespace other than blanks: for the video [My Clip .mp4] the folder
    is [my_clip], not [my_clip_], and a tab inside a name stays a tab. *)
Lemma save_path_whitespace_counterexample :
  save_block demo_abspath (lit "results") (lit "/videos/My Clip .mp4")
             [reference_sampler] [BgScalar 0] demo_tape
  = Ok (lit "/cwd/results/my_clip",
        [(lit "/cwd/results/my_clip/(0, 0).png", BgScalar 0)], demo_tape) /\
  spec_save_path (lit "/cwd/results") (lit "/videos/My Clip .mp4") 0 0 (lit "png")
  = lit "/cwd/results/my_clip_/(0, 0).png" /\
  lit "/cwd/results/my_clip/(0, 0).png"
  <> spec_save_path (lit "/cwd/results") (lit "/videos/My Clip .mp4") 0 0 (lit "png") /\
  video_name_only (lit "a" ++ [ascii_of_nat 9] ++ lit "b.mp4")
  = lit "a" ++ [ascii_of_nat 9] ++ lit "b" /\
  spec_sanitized_basename (lit "a" ++ [ascii_of_nat 9] ++ lit "b.mp4") = lit "a_b".
Proof.
  split; [reflexivity|]. split; [reflexivity|].
  split; [vm_compute; discriminate|]. split; reflexivity.
Qed.

Lemma save_block_paths_witness :
  demo_abspath (lit "results") <> [] /\
  Str.endswith PosixPath.sep (demo_abspath (lit "results")) = false /\
  video_name_only (lit "/videos/My Clip.mp4") <> [] /\
  PosixPath.join (PosixPath.join (demo_abspath (lit "results"))
                                 (video_name_only (lit "/videos/My Clip.mp4")))
                 (save_name (-13) 38)
  = lit "/cwd/results/my_clip/(-13, 38).png".
Proof.
  assert (H1 : demo_abspath (lit "results") <> []) by discriminate.
  assert (H2 : Str.endswith PosixPath.sep (demo_abspath (lit "results")) = false)
    by reflexivity.
  assert (H3 : video_name_only (lit "/videos/My Clip.mp4") <> []) by discriminate.
  refine (conj H1 (conj H2 (conj H3 _))).
  destruct (save_block_paths (G := Tape.t) demo_abspath (lit "results")
              (lit "/videos/My Clip.mp4") [] [] [])
    as (_ & _ & Hpath & _).
  rewrite (Hpath H1 H2 H3 (-13) 38). reflexivity.
Defined.

(** ** The timing arithmetic in binary64 *)

(** With both bounds at 1.0 the window is exactly [[0.0, 1.0]] in double
    arithmetic too, whatever the draws. *)
Lemma binary64_full_window (r1 r2 : spec_float) :
  Binary64.is_draw r1 = true -> Binary64.is_draw r2 = true ->
  Binary64.earliest_norm_sample Binary64.one Binary64.one r1 r2 = Binary64.zero /\
  Binary64.latest_norm_sample Binary64.one Binary64.one r1 r2 = Binary64.one.
Proof.
  destruct r1 as [[]|[]| |[] m1 e1]; try discriminate;
    destruct r2 as [[]|[]| |[] m2 e2]; try discriminate;
    intros _ _; split; reflexivity.
Qed.

(** The products of the scenario with 101 frames are exact: 100 times 0.0,
    0.5 and 1.0 are 0.0, 50.0 and 100.0. *)
Lemma binary64_scenario_products :
  let half := Binary64.div Binary64.one (Binary64.add Binary64.one Binary64.one) in
  Binary64.mul (Binary64.of_int (101 - 1)) Binary64.zero = Binary64.of_int 0 /\
  Binary64.mul (Binary64.of_int (101 - 1)) half = Binary64.of_int 50 /\
  Binary64.mul (Binary64.of_int (101 - 1)) Binary64.one = Binary64.of_int 100.
Proof. repeat split; reflexivity. Qed.

(** * Further properties of the sampler *)

Section MoreConstruction.

Context {G : Type} `{NumpyRandom G}.
Import Num.






End MoreConstruction.

Section MoreTiming.

Context {G : Type} `{NumpyRandom G}.
Import Num.





(** On every sampler object there are as many positions, and so as many
    frame indices, as samples were asked for. *)
Theorem frame_indices_count (s : Sampler) (T : Z) (g : G) :
  Constructed s ->
  exists out,
    get_frame_indices T s g = Ok (out, s, g) /\
    List.length out = Z.to_nat (_num_samples s) /\
    List.length (_norm_sample_idxs s) = Z.to_nat (_num_samples s).
Proof.
  intros Hs. destruct (Constructed_inv s Hs) as (_ & _ & _ & Hlen & _).
  eexists. split; [apply get_frame_indices_run|].
  now rewrite length_map.
Qed.


(** The reference timing covers the whole video: from two samples on, and
    for a frame count between 1 and [2^31], the first index is 0 and the
    last is [T - 1]. *)
Theorem reference_indices_cover_video (s : Sampler) (T : Z) (g : G) :
  Constructed s -> 2 <= _num_samples s -> 1 <= T <= 2 ^ 31 ->
  exists s1 g1 out,
    disable_random_sample_timing s g = Ok (tt, s1, g1) /\
    get_frame_indices T s1 g1 = Ok (out, s1, g1) /\
    hd 0 out = 0 /\ last out 0 = T - 1.
Proof.
  intros Hs Hn HT.
  exists (set_norm_sample_idxs (unit_grid (_num_samples s)) (set_durations 1 1 s)).
  exists (after_two_draws g). eexists.
  split; [apply disable_random_sample_timing_run; lia|].
  split; [apply get_frame_indices_run|]. fields.
  destruct (unit_grid_ends (_num_samples s) Hn) as [Hhd Hlast].
  assert (Hidx : forall p, in_unit_interval p ->
            np_int32 (np_round (of_int (T - 1) * p)%Qc) = rounded_index T p).
  { intros p Hp. apply frame_index_rounded, fits_int32_iff.
    pose proof (rounded_index_range T p ltac:(lia) Hp). lia. }
  destruct (unit_grid (_num_samples s)) as [|p0 l] eqn:El; [discriminate Hlast|].
  cbn [hd] in Hhd. subst p0. split.
  - cbn [map hd]. rewrite Hidx by (split; [apply Qcle_refl | discriminate]).
    unfold rounded_index. rewrite Qcmult_0_l. reflexivity.
  - destruct (exists_last (l := 0%Qc :: l) ltac:(discriminate)) as (l' & p & E).
    rewrite E in *. rewrite last_last in Hlast. subst p.
    rewrite map_app. cbn [map]. rewrite last_last.
    rewrite Hidx by (split; [discriminate | apply Qcle_refl]).
    unfold rounded_index. rewrite Qcmult_1_l. apply rint_of_int.
Qed.

End MoreTiming.

Section MoreCropping.

Context {G : Type} `{NumpyRandom G}.
Import Num.

Lemma py_slice_inside {A : Type} (l : list A) (a b : Z) :
  0 <= a <= b -> b <= Z.of_nat (List.length l) ->
  py_slice l a b = firstn (Z.to_nat (b - a)) (skipn (Z.to_nat a) l).
Proof.
  intros Hab Hb. unfold py_slice.
  destruct (Z.ltb_spec a 0); [lia|]. destruct (Z.ltb_spec b 0); [lia|].
  now rewrite !Z.min_l by lia.
Qed.

Lemma py_slice_inside_nth {A : Type} (l : list A) (a b : Z) (i : nat) (d : A) :
  0 <= a <= b -> b <= Z.of_nat (List.length l) ->
  (i < Z.to_nat (b - a))%nat ->
  nth i (py_slice l a b) d = nth (Z.to_nat a + i) l d.
Proof.
  intros Hab Hb Hi. rewrite py_slice_inside by assumption.
  rewrite nth_firstn. destruct (Nat.ltb_spec i (Z.to_nat (b - a))); [|lia].
  apply nth_skipn.
Qed.

Lemma slice_len_inside (len : nat) (a b : Z) :
  0 <= a <= b -> b <= Z.of_nat len -> slice_len len a b = Z.to_nat (b - a).
Proof.
  intros Hab Hb. unfold slice_len.
  destruct (Z.ltb_spec a 0); [lia|]. destruct (Z.ltb_spec b 0); [lia|].
  rewrite !Z.min_l by lia. lia.
Qed.

(** On a frame of the size the sampler was constructed for, with maximal
    shifts that fit into it, [crop] returns the sub-array of
    [video_height - max_y_shift] rows and [video_width - max_x_shift]
    columns whose corner is the crop offset: its pixel [(i, j)] is the pixel
    [(y1 + i, x1 + j)] of the frame. *)
Theorem crop_is_subarray (s : Sampler) (h w c : nat) (f : frame) (g : G) :
  Constructed s ->
  uint8_frame h w c f ->
  Z.of_nat h = _video_height s -> Z.of_nat w = _video_width s ->
  _max_x_shift s <= _video_width s -> _max_y_shift s <= _video_height s ->
  exists out,
    crop f s g = Ok (out, s, g) /\
    uint8_frame (Z.to_nat (_video_height s - _max_y_shift s))
                (Z.to_nat (_video_width s - _max_x_shift s)) c out /\
    let '(y1, _, x1, _) := _crop_y1y2x1x2 s in
    forall i j k,
      (i < Z.to_nat (_video_height s - _max_y_shift s))%nat ->
      (j < Z.to_nat (_video_width s - _max_x_shift s))%nat ->
      pixel_at out i j k = pixel_at f (Z.to_nat y1 + i) (Z.to_nat x1 + j) k.
Proof.
  intros Hs Hf Hh Hw Hmx Hmy.
  destruct (Constructed_inv s Hs) as (Hx & Hy & _ & _ & Hc).
  exists (cropped s f). split; [apply crop_cropped|].
  pose proof (cropped_uint8_frame s h w c f Hf) as Hshape.
  unfold crop_rect_ok, crop_rect_spec in Hc. unfold crop_shape, cropped in *.
  destruct (_crop_y1y2x1x2 s) as [[[y1 y2] x1] x2]. cbn [fst snd] in Hshape.
  rewrite !slice_len_inside in Hshape by lia.
  replace (y2 - y1) with (_video_height s - _max_y_shift s) in Hshape by lia.
  replace (x2 - x1) with (_video_width s - _max_x_shift s) in Hshape by lia.
  split; [exact Hshape|].
  intros i j k Hi Hj. unfold pixel_at, slice2.
  destruct Hf as [Hlen Hrows].
  rewrite (nth_map_lt _ _ i [] []) by (rewrite py_slice_length, slice_len_inside; lia).
  rewrite (py_slice_inside_nth f y1 y2 i []) by lia.
  rewrite Forall_forall in Hrows.
  assert (Hrow : List.length (nth (Z.to_nat y1 + i) f []) = w).
  { apply (Hrows (nth (Z.to_nat y1 + i) f [])). apply nth_In. lia. }
  now rewrite (py_slice_inside_nth _ x1 x2 j []) by lia.
Qed.


(** The two mutators commute: in either order they leave the same sampler
    and the same generator, or raise alike. *)
Theorem disable_operations_commute (s : Sampler) (g : G) :
  (disable_random_shift ;;; disable_random_sample_timing)%method s g
  = (disable_random_sample_timing ;;; disable_random_shift)%method s g.
Proof.
  unfold bind. rewrite disable_random_shift_run.
  rewrite !disable_random_sample_timing_unfold. fields.
  destruct (linspace 0 1 (_num_samples s)) as [l|e]; [|reflexivity].
  rewrite disable_random_shift_run. now destruct s.
Qed.


End MoreCropping.

(** * Further properties of the script *)

Section MoreConfiguration.

Context {G : Type} `{NumpyRandom G}.
Import Num.






End MoreConfiguration.

Section MoreCapture.

Context {G : Type} `{NumpyRandom G}.
Import Num.

Lemma capture_variant_background (T : Z) (s : Sampler) (st : Script G) (h w c : nat) :
  (forall i f, decoded (vread st) i = Some f -> uint8_frame h w c f) ->
  exists v,
    decoded v = decoded (vread st) /\
    capture_variant T s st
    = Ok (variant_background (decoded (vread st)) T s, s,
          mkScript v (stdout st ++ variant_warnings (decoded (vread st)) T s)
                   (np_random st)).
Proof.
  intros Hd. destruct (capture_variant_run T s st) as (v & Hv & Hrun).
  exists v. split; [exact Hv|]. rewrite Hrun.
  unfold variant_background, variant_warnings.
  pose proof (readable_crops_uint8 _ s (frame_indices T s) h w c Hd) as Hall.
  destruct (readable_crops (decoded (vread st)) s (frame_indices T s))
    as [|f kept] eqn:E; [reflexivity|].
  now rewrite (median_background_reduced _ _ _ (f :: kept) ltac:(discriminate) Hall).
Qed.

(** On a video of [uint8] frames of one shape the capture loop never
    raises.  It appends one background per sampler, in the order of the
    samplers, and each one is a function of its sampler and of the video
    alone: a variant without a readable frame does not touch the others.
    The samplers and the generator come out as they went in, and the
    warnings of the variants are printed in their order. *)
Theorem capture_loop_variants_independent (T : Z) (bg_samplers_list : list Sampler)
        (median_bg_frames : list Background) (st : Script G) (h w c : nat) :
  (forall i f, decoded (vread st) i = Some f -> uint8_frame h w c f) ->
  exists v,
    decoded v = decoded (vread st) /\
    capture_loop T bg_samplers_list median_bg_frames st
    = Ok (median_bg_frames
          ++ map (variant_background (decoded (vread st)) T) bg_samplers_list,
          bg_samplers_list,
          mkScript v
                   (stdout st
                    ++ flat_map (variant_warnings (decoded (vread st)) T)
                         bg_samplers_list)
                   (np_random st)).
Proof.
  revert median_bg_frames st.
  induction bg_samplers_list as [|s rest IH]; intros acc st Hd.
  - exists (vread st). split; [reflexivity|]. cbn. rewrite !app_nil_r.
    now destruct st.
  - cbn [capture_loop map flat_map].
    destruct (capture_variant_background T s st h w c Hd) as (v1 & Hv1 & ->).
    destruct (IH (acc ++ [variant_background (decoded (vread st)) T s])
                 (mkScript v1
                    (stdout st ++ variant_warnings (decoded (vread st)) T s)
                    (np_random st)))
      as (v & Hv & Hrun).
    { cbn [vread]. rewrite Hv1. exact Hd. }
    cbn [vread stdout np_random] in Hv, Hrun. rewrite Hv1 in Hv, Hrun.
    exists v. split; [exact Hv|]. rewrite Hrun.
    now rewrite <- !app_assoc.
Qed.

Lemma read_or_unreadable (dec : Z -> option frame) (s : Sampler) (idxs : list Z) :
  (List.length (readable_crops dec s idxs) + List.length (unreadable dec idxs))%nat
  = List.length idxs.
Proof.
  induction idxs as [|i idxs IH]; [reflexivity|].
  cbn [readable_crops unreadable flat_map filter].
  fold (readable_crops dec s idxs). fold (unreadable dec idxs).
  destruct (dec i); cbn [app List.length]; lia.
Qed.

Lemma read_error_lines_count (idxs : list Z) :
  List.length (flat_map read_error_lines idxs) = (2 * List.length idxs)%nat.
Proof.
  induction idxs as [|i idxs IH]; [reflexivity|].
  cbn [flat_map]. rewrite length_app, IH. cbn [read_error_lines List.length]. lia.
Qed.

(** No sample is dropped in silence: in a variant's run every one of the
    [num_samples] indices either contributes a crop or is reported by two
    printed lines. *)
Theorem every_sample_read_or_reported (T : Z) (s : Sampler) (st : Script G)
        (h w c : nat) :
  Constructed s ->
  (forall i f, decoded (vread st) i = Some f -> uint8_frame h w c f) ->
  let kept := readable_crops (decoded (vread st)) s (frame_indices T s) in
  let skipped := unreadable (decoded (vread st)) (frame_indices T s) in
  exists bg st',
    capture_variant T s st = Ok (bg, s, st') /\
    (List.length kept + List.length skipped)%nat = Z.to_nat (_num_samples s) /\
    List.length (stdout st')
    = (List.length (stdout st) + 2 * List.length skipped)%nat.
Proof.
  intros Hs Hd. cbv zeta.
  destruct (capture_variant_background T s st h w c Hd) as (v & _ & Hrun).
  do 2 eexists. split; [exact Hrun|]. split.
  - rewrite read_or_unreadable. unfold frame_indices. rewrite length_map.
    now destruct (Constructed_inv s Hs) as (_ & _ & _ & Hlen & _).
  - cbn [stdout]. unfold variant_warnings.
    now rewrite length_app, read_error_lines_count.
Qed.

(** The background of a variant has the size of the crop rectangle: on a
    video of the size the sampler was constructed for, with shifts that fit
    into it and at least one readable sample, it is an array of
    [video_height - max_y_shift] rows and [video_width - max_x_shift]
    columns of [uint8] pixels. *)
Theorem background_has_crop_size (T : Z) (s : Sampler) (st : Script G)
        (h w c : nat) :
  Constructed s ->
  (forall i f, decoded (vread st) i = Some f -> uint8_frame h w c f) ->
  Z.of_nat h = _video_height s -> Z.of_nat w = _video_width s ->
  _max_x_shift s <= _video_width s -> _max_y_shift s <= _video_height s ->
  readable_crops (decoded (vread st)) s (frame_indices T s) <> [] ->
  exists out st',
    capture_variant T s st = Ok (BgArray out, s, st') /\
    uint8_frame (Z.to_nat (_video_height s - _max_y_shift s))
                (Z.to_nat (_video_width s - _max_x_shift s)) c out.
Proof.
  intros Hs Hd Hh Hw Hmx Hmy Hne.
  destruct (capture_variant_background T s st h w c Hd) as (v & _ & Hrun).
  pose proof (readable_crops_uint8 _ s (frame_indices T s) h w c Hd) as Hall.
  unfold variant_background in Hrun.
  destruct (readable_crops (decoded (vread st)) s (frame_indices T s))
    as [|f kept] eqn:E; [easy|].
  do 2 eexists. split; [exact Hrun|].
  pose proof (reduced_uint8_frame _ _ _ (f :: kept) ltac:(discriminate) Hall)
    as Hshape.
  destruct (Constructed_inv s Hs) as (Hx & Hy & _ & _ & Hc).
  unfold crop_rect_ok, crop_rect_spec in Hc. unfold crop_shape in Hshape.
  destruct (_crop_y1y2x1x2 s) as [[[y1 y2] x1] x2]. cbn [fst snd] in Hshape.
  rewrite !slice_len_inside in Hshape by lia.
  replace (y2 - y1) with (_video_height s - _max_y_shift s) in Hshape by lia.
  replace (x2 - x1) with (_video_width s - _max_x_shift s) in Hshape by lia.
  exact Hshape.
Qed.

End MoreCapture.

Section MoreReduction.

Import Num.

Lemma columns_one {A : Type} (x : list A) : columns [x] = map (fun a => [a]) x.
Proof.
  cbn [columns]. induction x as [|a x IH]; [reflexivity|].
  cbn [columns_of flat_map map]. now rewrite IH.
Qed.

(** A variant with a single readable sample has the crop of that frame as
    its background, unchanged. *)
Theorem single_frame_background (h w c : nat) (f : frame) :
  uint8_frame h w c f -> median_background [f] = Ok (BgArray f).
Proof.
  intros Hf.
  rewrite (median_background_reduced h w c)
    by (try discriminate; repeat (constructor; [exact Hf|]); constructor).
  do 2 f_equal. destruct Hf as [_ Hrows]. unfold reduced.
  rewrite columns_one, map_map. apply map_id_in. intros row Hrow.
  rewrite Forall_forall in Hrows. destruct (Hrows row Hrow) as [_ Hpxs].
  rewrite columns_one, map_map. apply map_id_in. intros px Hpx.
  rewrite Forall_forall in Hpxs. destruct (Hpxs px Hpx) as [_ Hvs].
  rewrite columns_one, map_map. apply map_id_in. intros v Hv.
  rewrite Forall_forall in Hvs.
  rewrite (median_const v) by (try discriminate; repeat constructor).
  apply np_uint8_round_of_int. now apply Hvs.
Qed.

Lemma sorted_permutation_unique (l l' : list Z) :
  StronglySorted (fun x y => is_true (x <=? y)) l ->
  StronglySorted (fun x y => is_true (x <=? y)) l' ->
  Permutation l l' -> l = l'.
Proof.
  intros Hl. revert l'. induction Hl as [|a t Ht IH Ha]; intros l' Hl' Hperm.
  - now apply Permutation_nil in Hperm.
  - destruct l' as [|a' t'].
    { apply Permutation_sym, Permutation_nil in Hperm. discriminate Hperm. }
    inversion Hl' as [|? ? Ht' Ha']; subst.
    rewrite Forall_forall in Ha, Ha'.
    assert (Haa : a = a').
    { assert (H1 : In a (a' :: t')) by (eapply Permutation_in; [exact Hperm | now left]).
      assert (H2 : In a' (a :: t))
        by (eapply Permutation_in; [exact (Permutation_sym Hperm) | now left]).
      destruct H1 as [H1|H1]; [now symmetry|].
      destruct H2 as [H2|H2]; [exact H2|].
      specialize (Ha _ H2). specialize (Ha' _ H1).
      unfold is_true in *. rewrite Z.leb_le in *. lia. }
    subst a'. f_equal. apply IH; [exact Ht'|].
    now apply Permutation_cons_inv in Hperm.
Qed.

Lemma sort_permutation (l l' : list Z) :
  Permutation l l' -> ZSort.sort l = ZSort.sort l'.
Proof.
  intros Hperm.
  assert (Htrans : Transitive (fun x y => is_true (ZLeb.leb x y))).
  { intros x y z. unfold is_true, ZLeb.leb. rewrite !Z.leb_le. lia. }
  apply sorted_permutation_unique.
  - exact (ZSort.StronglySorted_sort l Htrans).
  - exact (ZSort.StronglySorted_sort l' Htrans).
  - eapply Permutation_trans; [apply Permutation_sym, ZSort.Permuted_sort|].
    eapply Permutation_trans; [exact Hperm | apply ZSort.Permuted_sort].
Qed.

Lemma median_permutation (vs vs' : list Z) :
  Permutation vs vs' -> median vs = median vs'.
Proof.
  intros Hperm. unfold median.
  now rewrite (sort_permutation vs vs' Hperm), (Permutation_length Hperm).
Qed.

Lemma uint8_frame_ext (h w c : nat) (f f' : frame) :
  uint8_frame h w c f -> uint8_frame h w c f' ->
  (forall i j k, (i < h)%nat -> (j < w)%nat -> (k < c)%nat ->
                 pixel_at f i j k = pixel_at f' i j k) ->
  f = f'.
Proof.
  intros Hf Hf' Hpx.
  pose proof Hf as [Hh _]. pose proof Hf' as [Hh' _].
  apply (nth_ext _ _ [] []); [congruence|]. intros i Hi. rewrite Hh in Hi.
  destruct w as [|w0].
  { destruct Hf as [_ Hr], Hf' as [_ Hr']. rewrite Forall_forall in Hr, Hr'.
    assert (Hi1 : (i < List.length f)%nat) by lia.
    assert (Hi2 : (i < List.length f')%nat) by lia.
    destruct (Hr _ (nth_In f [] Hi1)) as [E _].
    destruct (Hr' _ (nth_In f' [] Hi2)) as [E' _].
    apply length_zero_iff_nil in E, E'. congruence. }
  destruct c as [|c0].
  { destruct Hf as [_ Hr], Hf' as [_ Hr']. rewrite Forall_forall in Hr, Hr'.
    assert (Hi1 : (i < List.length f)%nat) by lia.
    assert (Hi2 : (i < List.length f')%nat) by lia.
    destruct (Hr _ (nth_In f [] Hi1)) as [Ew Hp].
    destruct (Hr' _ (nth_In f' [] Hi2)) as [Ew' Hp'].
    apply (nth_ext _ _ [] []); [congruence|]. intros j Hj.
    rewrite Forall_forall in Hp, Hp'.
    assert (Hj2 : (j < List.length (nth i f' []))%nat) by lia.
    destruct (Hp _ (nth_In _ [] Hj)) as [E _].
    destruct (Hp' _ (nth_In _ [] Hj2)) as [E' _].
    apply length_zero_iff_nil in E, E'. congruence. }
  destruct (uint8_frame_at h (S w0) (S c0) f i 0 0 Hf Hi ltac:(lia) ltac:(lia))
    as (Ew & _ & _).
  destruct (uint8_frame_at h (S w0) (S c0) f' i 0 0 Hf' Hi ltac:(lia) ltac:(lia))
    as (Ew' & _ & _).
  apply (nth_ext _ _ [] []); [congruence|]. intros j Hj. rewrite Ew in Hj.
  destruct (uint8_frame_at h (S w0) (S c0) f i j 0 Hf Hi Hj ltac:(lia))
    as (_ & Ec & _).
  destruct (uint8_frame_at h (S w0) (S c0) f' i j 0 Hf' Hi Hj ltac:(lia))
    as (_ & Ec' & _).
  apply (nth_ext _ _ 0 0); [congruence|]. intros k Hk. rewrite Ec in Hk.
  exact (Hpx i j k Hi Hj Hk).
Qed.

(** The background does not depend on the order in which the frames were
    collected: stacks that hold the same frames reduce alike. *)
Theorem background_order_irrelevant (h w c : nat) (stack stack' : list frame) :
  stack <> [] -> Forall (uint8_frame h w c) stack -> Permutation stack stack' ->
  median_background stack = median_background stack'.
Proof.
  intros Hne Hall Hperm.
  assert (Hne' : stack' <> []).
  { intros ->. now apply Permutation_sym, Permutation_nil in Hperm. }
  assert (Hall' : Forall (uint8_frame h w c) stack').
  { apply Forall_forall. intros f Hf. rewrite Forall_forall in Hall.
    apply Hall. eapply Permutation_in; [exact (Permutation_sym Hperm) | exact Hf]. }
  rewrite (median_background_reduced h w c stack Hne Hall).
  rewrite (median_background_reduced h w c stack' Hne' Hall').
  do 2 f_equal.
  apply (uint8_frame_ext h w c); try now apply reduced_uint8_frame.
  intros i j k Hi Hj Hk.
  destruct (reduced_at h w c stack i j k Hne Hall Hi Hj Hk) as [_ ->].
  destruct (reduced_at h w c stack' i j k Hne' Hall' Hi Hj Hk) as [_ ->].
  do 2 f_equal. apply median_permutation. now apply Permutation_map.
Qed.

End MoreReduction.

Section MoreSaving.

Context {G : Type} `{NumpyRandom G}.
Variable abspath : str -> str.
Import Str PosixPath.


Lemma lit_inj (a b : string) : lit a = lit b -> a = b.
Proof.
  intros E. apply (f_equal string_of_list_ascii) in E. unfold lit in E.
  now rewrite !string_of_list_ascii_of_string in E.
Qed.

Lemma to_int_printable (z : Z) :
  Z.to_int z <> Decimal.Pos Decimal.Nil /\ Z.to_int z <> Decimal.Neg Decimal.Nil.
Proof.
  destruct z as [|p|p]; cbn; split; try discriminate;
    intros [= E]; exact (DecimalPos.Unsigned.to_uint_nonnil p E).
Qed.

Lemma str_of_int_inj (a b : Z) : str_of_int a = str_of_int b -> a = b.
Proof.
  intros E. apply lit_inj in E.
  apply (f_equal NilZero.int_of_string) in E.
  destruct (to_int_printable a) as [Ha1 Ha2], (to_int_printable b) as [Hb1 Hb2].
  rewrite !NilZero.isi in E by assumption.
  injection E as E. now apply DecimalZ.to_int_inj.
Qed.

Lemma uint_no_comma (d : Decimal.uint) :
  Forall (fun ch => ch <> ","%char) (lit (NilEmpty.string_of_uint d)).
Proof.
  induction d; cbn; constructor; (discriminate || assumption).
Qed.

Lemma str_of_int_no_comma (z : Z) : Forall (fun ch => ch <> ","%char) (str_of_int z).
Proof.
  unfold str_of_int, NilZero.string_of_int, NilZero.string_of_uint.
  destruct (Z.to_int z) as [d|d]; destruct d;
    try (cbn; repeat constructor; discriminate);
    try (cbn [lit list_ascii_of_string]; constructor; [discriminate|]);
    try exact (uint_no_comma _);
    try (constructor; [discriminate | exact (uint_no_comma _)]).
Qed.

Lemma split_at_first (c : ascii) (a a' r r' : str) :
  Forall (fun ch => ch <> c) a -> Forall (fun ch => ch <> c) a' ->
  a ++ c :: r = a' ++ c :: r' -> a = a' /\ r = r'.
Proof.
  intros Ha. revert a'. induction Ha as [|x a Hx Ha IH]; intros a' Ha' E.
  - destruct a' as [|y a']; cbn in E.
    + now injection E as ->.
    + injection E as <- _. inversion Ha'; subst. congruence.
  - destruct a' as [|y a']; cbn in E.
    + injection E as -> _. congruence.
    + injection E as <- E. inversion Ha'; subst.
      destruct (IH a' ltac:(assumption) E) as [-> ->]. auto.
Qed.

Lemma save_name_inj (x y x' y' : Z) :
  save_name x y = save_name x' y' -> x = x' /\ y = y'.
Proof.
  unfold save_name. change (lit "(") with ["("%char].
  change (lit ", ") with [","%char; " "%char]. cbn [app].
  intros [= E].
  apply split_at_first in E; try apply str_of_int_no_comma.
  destruct E as [Ex E]. injection E as E. apply app_inv_tail in E.
  split; now apply str_of_int_inj.
Qed.

(** Two variants are written to the same file exactly when they report the
    same shift: in one folder the file name determines the shift, so a
    random variant that drew the offset of another one overwrites it. *)
Theorem save_paths_collide_iff_same_shift (folder : str) (x y x' y' : Z) :
  join folder (save_name x y) = join folder (save_name x' y')
  <-> (x = x' /\ y = y').
Proof.
  split; [|now intros [-> ->]].
  assert (Hjoin : forall a b,
             join folder (save_name a b)
             = (if match folder with [] => true | _ => endswith sep folder end
                then folder else folder ++ [sep]) ++ save_name a b).
  { intros a b. unfold join. change (startswith sep (save_name a b)) with false.
    destruct (match folder with [] => true | _ => endswith sep folder end);
      [reflexivity | now rewrite <- app_assoc]. }
  rewrite !Hjoin. intros E. apply app_inv_head in E. now apply save_name_inj.
Qed.

End MoreSaving.

Section MoreText.

Import Str PosixPath.

Lemma str_eqb_eq (a b : str) : str_eqb a b = true <-> a = b.
Proof.
  unfold str_eqb. destruct (list_eq_dec ascii_dec a b); split; congruence.
Qed.

Lemma lower_char_n (ch : ascii) :
  lower_char ch = "n"%char <-> (ch = "n"%char \/ ch = "N"%char).
Proof.
  destruct ch as [[] [] [] [] [] [] [] []]; vm_compute; split;
    try (intros [E|E]; discriminate E); try discriminate; auto.
Qed.

(** The save is declined exactly when the answer, without the whitespace
    around it, is the single letter [n] or [N]; every other answer,
    the empty one and [no] included, confirms it. *)
Theorem save_declined_iff_n (user_input : str) :
  save_confirmed user_input = false
  <-> (strip user_input = lit "n" \/ strip user_input = lit "N").
Proof.
  unfold save_confirmed. rewrite negb_false_iff, str_eqb_eq.
  unfold lower. destruct (strip user_input) as [|ch [|ch' t]]; cbn [map].
  - split; [discriminate | intros [E|E]; discriminate E].
  - change (lit "n") with ["n"%char]. change (lit "N") with ["N"%char]. split.
    + intros [= E]. apply lower_char_n in E. destruct E as [-> | ->]; auto.
    + intros [[= ->]|[= ->]]; reflexivity.
  - split; [discriminate | intros [E|E]; discriminate E].
Qed.

Lemma lstrip_idem (s : str) : lstrip (lstrip s) = lstrip s.
Proof.
  induction s as [|a t IH]; [reflexivity|]. cbn [lstrip].
  destruct (isspace a) eqn:E; [exact IH|]. cbn [lstrip]. now rewrite E.
Qed.

Lemma lstrip_length (s : str) : (List.length (lstrip s) <= List.length s)%nat.
Proof.
  induction s as [|a t IH]; [reflexivity|]. cbn [lstrip].
  destruct (isspace a); cbn [List.length]; lia.
Qed.

Lemma lstrip_fixed_iff (s : str) :
  lstrip s = s <-> (s = [] \/ exists a t, s = a :: t /\ isspace a = false).
Proof.
  split.
  - destruct s as [|a t]; [auto|]. cbn [lstrip]. destruct (isspace a) eqn:E.
    + intros Heq. pose proof (lstrip_length t) as Hlen.
      rewrite Heq in Hlen. cbn in Hlen. lia.
    + intros _. right. eauto.
  - intros [->|(a & t & -> & E)]; [reflexivity|]. cbn [lstrip]. now rewrite E.
Qed.

Lemma lstrip_before_nonspace (l : str) (a : ascii) :
  isspace a = false -> exists p, lstrip (l ++ [a]) = p ++ [a].
Proof.
  intros Ha. induction l as [|b l IH].
  - exists []. cbn. now rewrite Ha.
  - cbn [app lstrip]. destruct (isspace b); [exact IH|]. now exists (b :: l).
Qed.

(** What [strip] returns neither starts nor ends with whitespace. *)
Lemma strip_ends (x : str) :
  lstrip (strip x) = strip x /\ lstrip (rev (strip x)) = rev (strip x).
Proof.
  unfold strip, rstrip. rewrite rev_involutive. split; [|apply lstrip_idem].
  destruct (proj1 (lstrip_fixed_iff (lstrip x)) (lstrip_idem x))
    as [->|(a & t & -> & Ha)]; [reflexivity|].
  cbn [rev]. destruct (lstrip_before_nonspace (rev t) a Ha) as [p ->].
  rewrite rev_app_distr. cbn [rev app lstrip]. now rewrite Ha.
Qed.

Lemma strip_fixed (s : str) :
  lstrip s = s -> lstrip (rev s) = rev s -> strip s = s.
Proof.
  intros H1 H2. unfold strip, rstrip. rewrite H1, H2. apply rev_involutive.
Qed.

Lemma lstrip_map_fixed (f : ascii -> ascii) (s : str) :
  (forall ch, isspace ch = false -> isspace (f ch) = false) ->
  lstrip s = s -> lstrip (map f s) = map f s.
Proof.
  intros Hf Hs. apply lstrip_fixed_iff. apply lstrip_fixed_iff in Hs.
  destruct Hs as [->|(a & t & -> & Ha)]; [now left|].
  right. exists (f a), (map f t). split; [reflexivity | now apply Hf].
Qed.

Lemma sanitize_char_facts (ch : ascii) :
  let out := if Ascii.eqb (lower_char ch) " "%char then "_"%char else lower_char ch in
  out <> " "%char /\ lower_char out = out /\
  (isspace ch = false -> isspace out = false).
Proof.
  destruct ch as [[] [] [] [] [] [] [] []]; vm_compute;
    repeat split; congruence.
Qed.

(** The name of the output folder never holds a blank, an uppercase
    letter or a path separator, and neither starts nor ends with whitespace:
    putting it through the same cleaning again changes nothing. *)
Theorem video_name_only_clean (video_source : str) :
  let name := video_name_only video_source in
  Forall (fun ch => ch <> " "%char /\ ch <> sep /\ lower_char ch = ch) name /\
  strip name = name /\
  replace " "%char "_"%char (lower (strip name)) = name.
Proof.
  cbv zeta. pose proof (video_name_only_no_sep video_source) as Hsep.
  unfold video_name_only in *.
  destruct (splitext (basename video_source)) as [stem ext].
  unfold replace, lower in *. rewrite map_map in *.
  set (f := fun ch => if Ascii.eqb (lower_char ch) " "%char
                      then "_"%char else lower_char ch) in *.
  assert (Hchars : Forall (fun ch => ch <> " "%char /\ ch <> sep /\ lower_char ch = ch)
                          (map f (strip stem))).
  { rewrite Forall_forall in *. intros ch Hin. split; [|split].
    - apply in_map_iff in Hin. destruct Hin as (c0 & <- & _).
      apply (sanitize_char_facts c0).
    - now apply Hsep.
    - apply in_map_iff in Hin. destruct Hin as (c0 & <- & _).
      apply (sanitize_char_facts c0). }
  assert (Hstrip : strip (map f (strip stem)) = map f (strip stem)).
  { destruct (strip_ends stem) as [H1 H2]. apply strip_fixed.
    - apply lstrip_map_fixed; [|exact H1]. intros ch. apply (sanitize_char_facts ch).
    - rewrite <- map_rev. apply lstrip_map_fixed; [|exact H2].
      intros ch. apply (sanitize_char_facts ch). }
  split; [exact Hchars|]. split; [exact Hstrip|].
  rewrite Hstrip, map_map. apply map_id_in. intros ch Hin.
  rewrite Forall_forall in Hchars. destruct (Hchars ch Hin) as (Hb & _ & Hl).
  rewrite Hl. now destruct (Ascii.eqb_spec ch " "%char).
Qed.

End MoreText.

Section MorePipeline.

Context {G : Type} `{NumpyRandom G}.
Variable abspath : str -> str.


End MorePipeline.

(** * Instances of the further properties *)

Lemma tiny_sampler_init :
  __init__ (4, 3) (2, 1) (1%Qc, 1%Qc) 3 ([1; 0] : Tape.t) = Ok (tiny_sampler, []).
Proof. reflexivity. Qed.

Lemma tiny_sampler_Constructed : Constructed (G := Tape.t) tiny_sampler.
Proof. exact (Constructed_init _ _ _ _ _ _ _ tiny_sampler_init). Qed.

Lemma tiny_script_uint8 (bad : Z -> bool) :
  forall i f, decoded (vread (tiny_script bad)) i = Some f -> uint8_frame 3 4 3 f.
Proof. intros i f. apply tiny_decode_uint8. Qed.




Lemma frame_indices_count_witness :
  Constructed (G := Tape.t) demo_sampler /\
  exists out,
    get_frame_indices 101 demo_sampler demo_tape = Ok (out, demo_sampler, demo_tape) /\
    List.length out = 5%nat.
Proof.
  split; [exact demo_sampler_Constructed|].
  destruct (frame_indices_count demo_sampler 101 demo_tape demo_sampler_Constructed)
    as (out & Hrun & Hlen & _).
  exists out. split; [exact Hrun | exact Hlen].
Defined.

Lemma reference_indices_cover_video_witness :
  Constructed (G := Tape.t) demo_sampler /\ 2 <= _num_samples demo_sampler /\
  1 <= 101 <= 2 ^ 31 /\
  exists s1 g1 out,
    disable_random_sample_timing demo_sampler demo_tape = Ok (tt, s1, g1) /\
    get_frame_indices 101 s1 g1 = Ok (out, s1, g1) /\
    hd 0 out = 0 /\ last out 0 = 101 - 1.
Proof.
  assert (Hn : 2 <= _num_samples demo_sampler) by (cbn; lia).
  assert (HT : 1 <= 101 <= 2 ^ 31) by lia.
  refine (conj demo_sampler_Constructed (conj Hn (conj HT _))).
  exact (reference_indices_cover_video demo_sampler 101 demo_tape
           demo_sampler_Constructed Hn HT).
Defined.

Lemma crop_is_subarray_witness :
  Constructed (G := Tape.t) tiny_sampler /\ uint8_frame 3 4 3 (ramp 0) /\
  exists out,
    crop (ramp 0) tiny_sampler demo_tape = Ok (out, tiny_sampler, demo_tape) /\
    uint8_frame 2 2 3 out.
Proof.
  assert (Hf : uint8_frame 3 4 3 (ramp 0)) by (apply is_uint8_frame_sound; reflexivity).
  refine (conj tiny_sampler_Constructed (conj Hf _)).
  destruct (crop_is_subarray tiny_sampler 3 4 3 (ramp 0) demo_tape
              tiny_sampler_Constructed Hf eq_refl eq_refl
              ltac:(cbn; lia) ltac:(cbn; lia))
    as (out & Hrun & Hshape & _).
  exists out. split; [exact Hrun | exact Hshape].
Defined.




Lemma capture_loop_variants_independent_witness :
  (forall i f, decoded (vread (tiny_script (Z.eqb 2))) i = Some f ->
               uint8_frame 3 4 3 f) /\
  exists v,
    capture_loop 5 [tiny_sampler; tiny_sampler] [] (tiny_script (Z.eqb 2))
    = Ok ([BgArray [[[21; 235; 7]; [22; 235; 7]]; [[25; 235; 7]; [26; 235; 7]]];
           BgArray [[[21; 235; 7]; [22; 235; 7]]; [[25; 235; 7]; [26; 235; 7]]]],
          [tiny_sampler; tiny_sampler],
          mkScript v (map lit ["Error reading frame @ 2.00"; "Skipping...";
                               "Error reading frame @ 2.00"; "Skipping..."]%string)
                   []).
Proof.
  split; [exact (tiny_script_uint8 (Z.eqb 2))|].
  destruct (capture_loop_variants_independent 5 [tiny_sampler; tiny_sampler] []
              (tiny_script (Z.eqb 2)) 3 4 3 (tiny_script_uint8 (Z.eqb 2)))
    as (v & _ & Hrun).
  exists v. exact Hrun.
Defined.

Lemma every_sample_read_or_reported_witness :
  Constructed (G := Tape.t) tiny_sampler /\
  (forall i f, decoded (vread (tiny_script (Z.eqb 2))) i = Some f ->
               uint8_frame 3 4 3 f) /\
  exists bg st',
    capture_variant 5 tiny_sampler (tiny_script (Z.eqb 2)) = Ok (bg, tiny_sampler, st') /\
    List.length (stdout st') = 2%nat.
Proof.
  refine (conj tiny_sampler_Constructed (conj (tiny_script_uint8 (Z.eqb 2)) _)).
  destruct (every_sample_read_or_reported 5 tiny_sampler (tiny_script (Z.eqb 2))
              3 4 3 tiny_sampler_Constructed (tiny_script_uint8 (Z.eqb 2)))
    as (bg & st' & Hrun & _ & Hout).
  exists bg, st'. split; [exact Hrun | exact Hout].
Defined.

Lemma background_has_crop_size_witness :
  Constructed (G := Tape.t) tiny_sampler /\
  readable_crops (decoded (vread (tiny_script (Z.eqb 2)))) tiny_sampler
                 (frame_indices 5 tiny_sampler) <> [] /\
  exists out st',
    capture_variant 5 tiny_sampler (tiny_script (Z.eqb 2))
    = Ok (BgArray out, tiny_sampler, st') /\
    uint8_frame 2 2 3 out.
Proof.
  assert (Hne : readable_crops (decoded (vread (tiny_script (Z.eqb 2)))) tiny_sampler
                               (frame_indices 5 tiny_sampler) <> []) by discriminate.
  refine (conj tiny_sampler_Constructed (conj Hne _)).
  exact (background_has_crop_size 5 tiny_sampler (tiny_script (Z.eqb 2)) 3 4 3
           tiny_sampler_Constructed (tiny_script_uint8 (Z.eqb 2)) eq_refl eq_refl
           ltac:(cbn; lia) ltac:(cbn; lia) Hne).
Defined.

Lemma single_frame_background_witness :
  uint8_frame 3 4 3 (ramp 40) /\ median_background [ramp 40] = Ok (BgArray (ramp 40)).
Proof.
  assert (Hf : uint8_frame 3 4 3 (ramp 40)) by (apply is_uint8_frame_sound; reflexivity).
  split; [exact Hf | exact (single_frame_background 3 4 3 (ramp 40) Hf)].
Defined.

Lemma background_order_irrelevant_witness :
  [ramp 0; ramp 40; ramp 10] <> [] /\
  Forall (uint8_frame 3 4 3) [ramp 0; ramp 40; ramp 10] /\
  Permutation [ramp 0; ramp 40; ramp 10] [ramp 40; ramp 0; ramp 10] /\
  median_background [ramp 0; ramp 40; ramp 10]
  = median_background [ramp 40; ramp 0; ramp 10].
Proof.
  assert (Hne : [ramp 0; ramp 40; ramp 10] <> []) by discriminate.
  assert (Hall : Forall (uint8_frame 3 4 3) [ramp 0; ramp 40; ramp 10]).
  { repeat (constructor; [apply is_uint8_frame_sound; reflexivity|]). constructor. }
  assert (Hperm : Permutation [ramp 0; ramp 40; ramp 10] [ramp 40; ramp 0; ramp 10])
    by apply perm_swap.
  refine (conj Hne (conj Hall (conj Hperm _))).
  exact (background_order_irrelevant 3 4 3 _ _ Hne Hall Hperm).
Defined.

